(** * Targetify: the target list and the install banner

    A shallow embedding of [src/components/TargetTracker.tsx] (the list of
    targets, its handlers and its two [useEffect] hooks on [localStorage]) and
    of the [InstallPrompt] component, with the parts of the host platform the
    components call: strings and [trim], [Date] and its ISO text, JSON values,
    [localStorage], the toast sink and the [beforeinstallprompt] handle.

    Part I holds the model, Part II the facts proved about it. *)

From Stdlib Require Import ZArith List Bool String Ascii Lia Floats Uint63.
From Stdlib Require Import DecimalString DecimalPos DecimalZ.
Import ListNotations.

Set Warnings "-register-all".

Local Open Scope string_scope.
Local Open Scope Z_scope.

(* ===================================================================== *)
(** * Part I: the model *)
(* ===================================================================== *)

(** ** Exceptions

    A computation that may throw returns [Throw e]; [try]/[catch] is a match
    on the result. *)

Inductive error := SyntaxError | TypeError | QuotaExceededError.

Inductive result (A : Type) := Ok (a : A) | Throw (e : error).
Arguments Ok {A} a.
Arguments Throw {A} e.

Definition bind {A B} (r : result A) (k : A -> result B) : result B :=
  match r with Ok a => k a | Throw e => Throw e end.

Notation "x <- r ;; k" := (bind r (fun x => k))
  (at level 61, r at next level, right associativity).

(** [Array.prototype.map] with a callback that may throw: elements are visited
    from the left and the first exception ends the loop. *)
Fixpoint mapM {A B} (f : A -> result B) (l : list A) : result (list B) :=
  match l with
  | [] => Ok []
  | x :: l' => y <- f x ;; ys <- mapM f l' ;; Ok (y :: ys)
  end.

(** ** Strings

    A JavaScript string is a sequence of code units; the model keeps the code
    units below 256, one [ascii] each. *)

Definition dquote : string := String (ascii_of_nat 34) EmptyString.

(** The WhiteSpace and LineTerminator code points below 256: TAB, LF, VT, FF,
    CR, SP and NBSP. *)
Definition is_white_space (c : ascii) : bool :=
  let n := nat_of_ascii c in
  ((9 <=? n) && (n <=? 13) || (n =? 32) || (n =? 160))%nat.

Fixpoint trimStart (s : string) : string :=
  match s with
  | EmptyString => EmptyString
  | String c s' => if is_white_space c then trimStart s' else s
  end.

Fixpoint trimEnd (s : string) : string :=
  match s with
  | EmptyString => EmptyString
  | String c s' =>
      match trimEnd s' with
      | EmptyString => if is_white_space c then EmptyString else String c EmptyString
      | r => String c r
      end
  end.

(** [String.prototype.trim]. *)
Definition trim (s : string) : string := trimEnd (trimStart s).

(** [!s] for a string [s]: the empty string is the only falsy one. *)
Definition is_empty (s : string) : bool :=
  match s with EmptyString => true | _ => false end.

Fixpoint whitespace_only (s : string) : bool :=
  match s with
  | EmptyString => true
  | String c s' => is_white_space c && whitespace_only s'
  end.

(** [Number.prototype.toString] on an integer of magnitude below 1e21: its
    decimal digits, with a minus sign when negative. *)
Definition integer_toString (z : Z) : string :=
  NilZero.string_of_int (Z.to_int z).

(** ** Dates

    The time value of a [Date] is a whole number of milliseconds since the
    epoch, at most 8.64e15 in magnitude, or NaN for an invalid date ([None]). *)

Definition time_value := option Z.

Definition msPerDay : Z := 86400000.
Definition maxTime : Z := 8640000000000000.

Definition in_time_range (t : Z) : bool := (- maxTime <=? t) && (t <=? maxTime).

Definition TimeClip (t : Z) : time_value :=
  if in_time_range t then Some t else None.

(** *** The proleptic Gregorian calendar

    Days are counted in eras of 400 years (146097 days) that start on the
    first of March, so that the leap day is the last day of a year of the
    era. [civil_of_doe] splits a day of the era into the year of the era, the
    month (1 to 12) and the day of the month; [doe_of_civil] is its inverse. *)

Definition daysPerEra : Z := 146097.
Definition epochShift : Z := 719468.

Definition civil_of_doe (doe : Z) : Z * Z * Z :=
  let yoe := (doe - doe / 1460 + doe / 36524 - doe / 146096) / 365 in
  let doy := doe - (365 * yoe + yoe / 4 - yoe / 100) in
  let mp := (5 * doy + 2) / 153 in
  let d := doy - (153 * mp + 2) / 5 + 1 in
  let m := if mp <? 10 then mp + 3 else mp - 9 in
  (yoe, m, d).

Definition doe_of_civil (yoe m d : Z) : Z :=
  let mp := if 2 <? m then m - 3 else m + 9 in
  let doy := (153 * mp + 2) / 5 + d - 1 in
  yoe * 365 + yoe / 4 - yoe / 100 + doy.

(** January and February belong to the year of the era that started the
    March before. *)
Definition year_carry (m : Z) : Z := if m <=? 2 then 1 else 0.

(** Year, month (1 to 12) and day of the month of a day number (days since
    the epoch): YearFromTime, MonthFromTime + 1 and DateFromTime. *)
Definition civil_from_days (day : Z) : Z * Z * Z :=
  let z := day + epochShift in
  let era := z / daysPerEra in
  let '(yoe, m, d) := civil_of_doe (z mod daysPerEra) in
  (yoe + era * 400 + year_carry m, m, d).

(** MakeDay, for a month counted from 1. *)
Definition days_from_civil (y m d : Z) : Z :=
  let y' := y - year_carry m in
  (y' / 400) * daysPerEra + doe_of_civil (y' mod 400) m d - epochShift.

Definition is_leap_year (y : Z) : bool :=
  (y mod 4 =? 0) && (negb (y mod 100 =? 0) || (y mod 400 =? 0)).

Definition DaysInMonth (y m : Z) : Z :=
  if m =? 2 then (if is_leap_year y then 29 else 28)
  else if (m =? 4) || (m =? 6) || (m =? 9) || (m =? 11) then 30
  else 31.

(** MakeTime and MakeDate. *)
Definition MakeTime (h mi s ms : Z) : Z := ((h * 60 + mi) * 60 + s) * 1000 + ms.
Definition MakeDate (day time : Z) : Z := day * msPerDay + time.

(** *** The date-time string format *)

Definition digit_char (d : Z) : ascii := ascii_of_nat (48 + Z.to_nat d).

Definition digit_val (c : ascii) : option Z :=
  let n := nat_of_ascii c in
  if ((48 <=? n) && (n <=? 57))%nat then Some (Z.of_nat n - 48) else None.

(** [pad n z]: the last [n] decimal digits of [z], most significant first. *)
Fixpoint pad (n : nat) (z : Z) : string :=
  match n with
  | O => EmptyString
  | S k => String (digit_char (z / 10 ^ Z.of_nat k mod 10)) (pad k z)
  end.

(** [read_digits n acc s] reads exactly [n] digits from the front of [s]. *)
Fixpoint read_digits (n : nat) (acc : Z) (s : string) : option (Z * string) :=
  match n with
  | O => Some (acc, s)
  | S k =>
      match s with
      | String c s' =>
          match digit_val c with
          | Some d => read_digits k (acc * 10 + d) s'
          | None => None
          end
      | EmptyString => None
      end
  end.

Definition expect (c : ascii) (s : string) : option string :=
  match s with
  | String c' s' => if Ascii.eqb c c' then Some s' else None
  | EmptyString => None
  end.

Definition obind {A B} (o : option A) (k : A -> option B) : option B :=
  match o with Some a => k a | None => None end.

Notation "x <~ o ;; k" := (obind o (fun x => k))
  (at level 61, o at next level, right associativity).

(** The year of [toISOString]: four digits from 0 to 9999, otherwise a sign
    and six digits (the expanded years). *)
Definition year_string (y : Z) : string :=
  if (0 <=? y) && (y <=? 9999) then pad 4 y
  else String (if y <? 0 then "-"%char else "+"%char) (pad 6 (Z.abs y)).

(** [Date.prototype.toISOString] on a valid time value:
    [YYYY-MM-DDTHH:mm:ss.sssZ]. *)
Definition toISOString (t : Z) : string :=
  let '(y, m, d) := civil_from_days (t / msPerDay) in
  let r := t mod msPerDay in
  year_string y ++ String "-" (pad 2 m ++ String "-" (pad 2 d ++ String "T"
    (pad 2 (r / 3600000) ++ String ":" (pad 2 (r / 60000 mod 60) ++ String ":"
    (pad 2 (r / 1000 mod 60) ++ String "." (pad 3 (r mod 1000) ++ "Z")))))).

Definition read_year (s : string) : option (Z * string) :=
  match s with
  | String c s' =>
      if Ascii.eqb c "+" then read_digits 6 0 s'
      else if Ascii.eqb c "-" then
        p <~ read_digits 6 0 s' ;;
        (if fst p =? 0 then None else Some (- fst p, snd p))
      else read_digits 4 0 s
  | EmptyString => None
  end.

(** The complete UTC form of the date-time string format, every element
    present and legal. [None] means the text is not of that form. *)
Definition parse_date_time (s : string) : option Z :=
  py <~ read_year s ;;
  s1 <~ expect "-" (snd py) ;;
  pm <~ read_digits 2 0 s1 ;;
  s2 <~ expect "-" (snd pm) ;;
  pd <~ read_digits 2 0 s2 ;;
  s3 <~ expect "T" (snd pd) ;;
  ph <~ read_digits 2 0 s3 ;;
  s4 <~ expect ":" (snd ph) ;;
  pmi <~ read_digits 2 0 s4 ;;
  s5 <~ expect ":" (snd pmi) ;;
  ps <~ read_digits 2 0 s5 ;;
  s6 <~ expect "." (snd ps) ;;
  pms <~ read_digits 3 0 s6 ;;
  s7 <~ expect "Z" (snd pms) ;;
  let '(y, m, d) := (fst py, fst pm, fst pd) in
  if is_empty s7 && (1 <=? m) && (m <=? 12) && (1 <=? d) && (d <=? DaysInMonth y m)
     && (fst ph <=? 23) && (fst pmi <=? 59) && (fst ps <=? 59)
  then
    let t := MakeDate (days_from_civil y m d)
                      (MakeTime (fst ph) (fst pmi) (fst ps) (fst pms)) in
    if in_time_range t then Some t else None
  else None.

(** ** Values

    The values the component holds at run time. An object is the list of its
    own enumerable properties, in property order; the list has one entry for
    each key. A number is an IEEE 754 double. *)

Inductive value :=
| VUndefined
| VNull
| VBool (b : bool)
| VNum (x : float)
| VStr (s : string)
| VDate (t : time_value)
| VArr (l : list value)
| VObj (props : list (string * value)).

Definition object := list (string * value).

(** The values of JSON texts, as [JSON.parse] builds them: an object has
    one entry for each key, in the property order of the object built. *)
Inductive json :=
| JNull
| JBool (b : bool)
| JNum (x : float)
| JStr (s : string)
| JArr (l : list json)
| JObj (props : list (string * json)).

(** The content of a storage item: the empty string, a non-empty text that
    [JSON.parse] rejects, or a JSON text, kept as the value it denotes. *)
Inductive stored := EmptyText | Unparsable | JsonText (j : json).

Fixpoint of_json (j : json) : value :=
  match j with
  | JNull => VNull
  | JBool b => VBool b
  | JNum x => VNum x
  | JStr s => VStr s
  | JArr l => VArr (map of_json l)
  | JObj props => VObj (map (fun kv => (fst kv, of_json (snd kv))) props)
  end.

(** SerializeJSONProperty: [None] is [undefined] (the property is left out, an
    array element becomes [null]). A date goes through its [toJSON]: the ISO
    string, or [null] for an invalid date; a number that is not finite becomes
    [null], and negative zero is written as [0]. *)
Fixpoint to_json (v : value) : option json :=
  match v with
  | VUndefined => None
  | VNull => Some JNull
  | VBool b => Some (JBool b)
  | VNum x =>
      Some (if PrimFloat.is_nan x || PrimFloat.is_infinity x then JNull
            else if PrimFloat.is_zero x then JNum PrimFloat.zero
            else JNum x)
  | VStr s => Some (JStr s)
  | VDate None => Some JNull
  | VDate (Some t) => Some (JStr (toISOString t))
  | VArr l =>
      Some (JArr (map (fun e => match to_json e with Some j => j | None => JNull end) l))
  | VObj props =>
      Some (JObj (flat_map (fun kv => match to_json (snd kv) with
                                      | Some j => [(fst kv, j)]
                                      | None => []
                                      end) props))
  end.

(** [JSON.stringify] on an array of objects, as the text to store. The
    result is never [undefined] for an array; [setItem] would store
    [undefined] as a text that is no JSON. *)
Definition JSON_stringify (l : list object) : stored :=
  match to_json (VArr (map VObj l)) with
  | Some j => JsonText j
  | None => Unparsable
  end.

(** [JSON.parse]. *)
Definition JSON_parse (s : stored) : result value :=
  match s with
  | JsonText j => Ok (of_json j)
  | EmptyText | Unparsable => Throw SyntaxError
  end.

(** ToBoolean. *)
Definition ToBoolean (v : value) : bool :=
  match v with
  | VUndefined | VNull => false
  | VBool b => b
  | VNum x => negb (PrimFloat.is_zero x || PrimFloat.is_nan x)
  | VStr s => negb (is_empty s)
  | VDate _ | VArr _ | VObj _ => true
  end.

(** [v === s] for a string [s]. *)
Definition strict_eq_string (v : value) (s : string) : bool :=
  match v with
  | VStr s' => String.eqb s' s
  | _ => false
  end.

(** [o.k] on an object. *)
Fixpoint get_prop (o : object) (k : string) : value :=
  match o with
  | [] => VUndefined
  | (k', v) :: o' => if String.eqb k' k then v else get_prop o' k
  end.

(** [{ ...o, k: v }]: the key keeps its place when [o] has it and is added last
    otherwise. *)
Fixpoint set_prop (o : object) (k : string) (v : value) : object :=
  match o with
  | [] => [(k, v)]
  | (k', v') :: o' =>
      if String.eqb k' k then (k', v) :: o' else (k', v') :: set_prop o' k v
  end.

(** [t.k] on any value, for a key [k] that no prototype defines ([createdAt]
    here): reading a property of [null] or [undefined] throws. *)
Definition get_member (t : value) (k : string) : result value :=
  match t with
  | VUndefined | VNull => Throw TypeError
  | VObj o => Ok (get_prop o k)
  | _ => Ok VUndefined
  end.

Fixpoint index_props {A} (f : A -> value) (i : nat) (l : list A) : object :=
  match l with
  | [] => []
  | x :: l' => (integer_toString (Z.of_nat i), f x) :: index_props f (S i) l'
  end.

(** [{ ...t }]: the own enumerable properties of [t]. An array and a string
    have their indices; the other primitives, and a date, have none. *)
Definition spread (t : value) : object :=
  match t with
  | VObj o => o
  | VArr l => index_props (fun e => e) 0 l
  | VStr s => index_props (fun c => VStr (String c EmptyString)) 0 (list_ascii_of_string s)
  | _ => []
  end.

(** ToIntegerOrInfinity and TimeClip on a double. *)
Definition number_TimeClip (x : float) : time_value :=
  if PrimFloat.is_nan x || PrimFloat.is_infinity x then None
  else
    match Prim2SF x with
    | SpecFloat.S754_finite s m e =>
        let z := match e with
                 | Z0 => Zpos m
                 | Zpos p => Zpos m * 2 ^ Zpos p
                 | Zneg p => Zpos m / 2 ^ Zpos p
                 end in
        TimeClip (if s then - z else z)
    | SpecFloat.S754_zero _ => Some 0
    | _ => None
    end.

(** ** The host

    What the language leaves to the implementation, or what depends on the
    machine: the date texts accepted beyond the date-time string format, the
    text of a number, of a date, of an array and of an object (ToString, which
    throws on an object with no callable [toString] and [valueOf]), and
    whether the storage has room for a new value of the item. *)

Class Host := {
  Date_parse_fallback : string -> time_value;
  host_ToString : value -> result string;
  setItem_fits : stored -> bool
}.

Section WithHost.
Context {host : Host}.

(** [Date.parse]. *)
Definition Date_parse (s : string) : time_value :=
  match parse_date_time s with
  | Some t => Some t
  | None => obind (Date_parse_fallback s) TimeClip
  end.

(** ToString. *)
Definition ToString (v : value) : result string :=
  match v with
  | VUndefined => Ok "undefined"
  | VNull => Ok "null"
  | VBool b => Ok (if b then "true" else "false")
  | VStr s => Ok s
  | VNum _ | VDate _ | VArr _ | VObj _ => host_ToString v
  end.

(** [new Date(v)], the time value of the new date. An array or an object is
    first made a primitive, which for the values of a JSON text is its
    ToString. *)
Definition new_Date (v : value) : result time_value :=
  match v with
  | VDate t => Ok t
  | VStr s => Ok (Date_parse s)
  | VUndefined => Ok None
  | VNull => Ok (Some 0)
  | VBool b => Ok (Some (if b then 1 else 0))
  | VNum x => Ok (number_TimeClip x)
  | VArr _ | VObj _ => s <- host_ToString v ;; Ok (Date_parse s)
  end.

End WithHost.

(** ** The target list: [TargetTracker] *)

(** [interface Target]. *)
Record Target := {
  id : string;
  text : string;
  completed : bool;
  createdAt : time_value
}.

(** A target as the object the component holds. *)
Definition object_of_Target (t : Target) : object :=
  [("id", VStr (id t)); ("text", VStr (text t));
   ("completed", VBool (completed t)); ("createdAt", VDate (createdAt t))].

(** The toast sink: [toast({ title, description, variant })]; a call with no
    variant shows the default one. *)
Inductive toast_variant := Default | Destructive.

Record Toast := {
  title : string;
  description : string;
  variant : toast_variant
}.

(** What the component does to the outside, newest first. *)
Inductive event :=
| EToast (t : Toast)
| EConsoleError (msg : string) (e : error)
| ESetItem (v : stored).

(** The component and its surroundings: the two state cells, the storage
    item [dailyTargets] ([None] when the key is absent), the events so far, and
    whether [setTargets] was called since the last render (the dependency of
    the saving effect changed). *)
Record App := {
  targets : list object;
  newTarget : string;
  storage : option stored;
  log : list event;
  targets_changed : bool
}.

Definition setTargets (f : list object -> list object) (a : App) : App :=
  {| targets := f (targets a); newTarget := newTarget a; storage := storage a;
     log := log a; targets_changed := true |}.

Definition setNewTarget (s : string) (a : App) : App :=
  {| targets := targets a; newTarget := s; storage := storage a;
     log := log a; targets_changed := targets_changed a |}.

Definition emit (e : event) (a : App) : App :=
  {| targets := targets a; newTarget := newTarget a; storage := storage a;
     log := e :: log a; targets_changed := targets_changed a |}.

Definition toast (t : Toast) (a : App) : App := emit (EToast t) a.

Definition console_error (msg : string) (e : error) (a : App) : App :=
  emit (EConsoleError msg e) a.

Section TargetTracker.
Context {host : Host}.

(** [localStorage.setItem('dailyTargets', v)]: when the storage has no room
    the call throws (the error is returned) and the item keeps its value. *)
Definition setItem (v : stored) (a : App) : App * option error :=
  let a' := emit (ESetItem v) a in
  if setItem_fits v then
    ({| targets := targets a'; newTarget := newTarget a'; storage := Some v;
        log := log a'; targets_changed := targets_changed a' |}, None)
  else (a', Some QuotaExceededError).

(** The callback of the loading effect:
    [t => ({ ...t, createdAt: new Date(t.createdAt) })]. *)
Definition restore (t : value) : result object :=
  c <- get_member t "createdAt" ;;
  d <- new_Date c ;;
  Ok (set_prop (spread t) "createdAt" (VDate d)).

(** [parsed.map(f)]: only an array has a [map] to call. *)
Definition call_map (parsed : value) (f : value -> result object) : result (list object) :=
  match parsed with
  | VArr l => mapM f l
  | _ => Throw TypeError
  end.

(** [if (savedTargets)] on what [getItem] returned. *)
Definition truthy_item (s : stored) : bool :=
  match s with EmptyText => false | _ => true end.

(** The effect that loads the targets from [localStorage], run on mount. *)
Definition load_effect (a : App) : App :=
  match storage a with
  | None => a
  | Some savedTargets =>
      if truthy_item savedTargets then
        match (parsed <- JSON_parse savedTargets ;; call_map parsed restore) with
        | Ok loaded => setTargets (fun _ => loaded) a
        | Throw error =>
            toast {| title := "Error";
                     description := "Could not load your saved targets.";
                     variant := Destructive |}
                  (console_error "Error loading targets:" error a)
        end
      else a
  end.

(** The effect that saves the targets, run after every render in which
    [targets] changed; [ts] is the [targets] of that render. *)
Definition save_effect (ts : list object) (a : App) : App :=
  let (a', thrown) := setItem (JSON_stringify ts) a in
  match thrown with
  | None => a'
  | Some error =>
      toast {| title := "Error";
               description := "Could not save your targets.";
               variant := Destructive |}
            (console_error "Error saving targets:" error a')
  end.

(** The render that follows a handler: the saving effect runs when
    [setTargets] was called. The JSX of the render is not part of the model;
    it evaluates without an exception on targets that are records of the
    interface, and may throw on others read from the storage (a [text] that is
    an object), after which no effect runs. *)
Definition render (a : App) : App :=
  if targets_changed a then
    save_effect (targets a)
      {| targets := targets a; newTarget := newTarget a; storage := storage a;
         log := log a; targets_changed := false |}
  else a.

(** The component before its first render on a page whose storage item is
    [s]. *)
Definition initial (s : option stored) : App :=
  {| targets := []; newTarget := ""; storage := s; log := [];
     targets_changed := false |}.

(** Mounting: the first render has [targets = []]; its two effects run in
    the order of the source, the saving one with the [targets] of that
    render; the render after them sees what the loading effect has set. *)
Definition mount (s : option stored) : App :=
  render (save_effect [] (load_effect (initial s))).

Definition addTarget (now_id now_created : Z) (a : App) : App :=
  render
    (if is_empty (trim (newTarget a)) then
       toast {| title := "Empty Target";
                description := "Please enter a target before adding.";
                variant := Destructive |} a
     else
       let target : object :=
         [("id", VStr (integer_toString now_id));
          ("text", VStr (trim (newTarget a)));
          ("completed", VBool false);
          ("createdAt", VDate (Some now_created))] in
       toast {| title := "Target Added!";
                description := dquote ++ trim (newTarget a) ++ dquote
                               ++ " has been added to your list.";
                variant := Default |}
             (setNewTarget ""
                (setTargets (fun prev => target :: prev) a))).

Definition toggleTarget (id : string) (a : App) : App :=
  render
    (setTargets
       (fun prev =>
          map (fun target =>
                 if strict_eq_string (get_prop target "id") id
                 then set_prop target "completed"
                        (VBool (negb (ToBoolean (get_prop target "completed"))))
                 else target) prev) a).

Definition deleteTarget (id : string) (a : App) : App :=
  let targetText :=
    match find (fun t => strict_eq_string (get_prop t "id") id) (targets a) with
    | Some t => get_prop t "text"
    | None => VUndefined
    end in
  let a' := setTargets
              (fun prev =>
                 filter (fun target => negb (strict_eq_string (get_prop target "id") id))
                        prev) a in
  render
    (match ToString targetText with
     | Ok s =>
         toast {| title := "Target Removed";
                  description := dquote ++ s ++ dquote ++ " has been deleted.";
                  variant := Destructive |} a'
     | Throw _ => a'
     end).

Definition clearCompleted (a : App) : App :=
  let completedCount :=
    List.length (filter (fun t => ToBoolean (get_prop t "completed")) (targets a)) in
  render
    (if (completedCount =? 0)%nat then
       toast {| title := "Nothing to Clear";
                description := "You have no completed targets to clear.";
                variant := Default |} a
     else
       toast {| title := "Completed Targets Cleared";
                description := "Removed " ++ integer_toString (Z.of_nat completedCount)
                               ++ " completed targets.";
                variant := Default |}
             (setTargets
                (fun prev =>
                   filter (fun target => negb (ToBoolean (get_prop target "completed")))
                          prev) a)).

(** The two counts of the [useMemo] (the percentage, a rounded double, is
    not needed below). *)
Definition completedCount (a : App) : nat :=
  List.length (filter (fun target => ToBoolean (get_prop target "completed")) (targets a)).

Definition totalCount (a : App) : nat := List.length (targets a).

(** The input's [onChange] and [onKeyPress]. *)
Definition onChange (v : string) (a : App) : App := setNewTarget v a.

Definition handleKeyPress (key : string) (now_id now_created : Z) (a : App) : App :=
  if String.eqb key "Enter" then addTarget now_id now_created a else a.

(** What a user does to the list, with the clock readings of an addition. *)
Inductive action :=
| Add (s : string) (now_id now_created : Z)
| Toggle (id : string)
| Delete (id : string)
| ClearCompleted.

Definition perform (a : App) (act : action) : App :=
  match act with
  | Add s now_id now_created => addTarget now_id now_created (onChange s a)
  | Toggle i => toggleTarget i a
  | Delete i => deleteTarget i a
  | ClearCompleted => clearCompleted a
  end.

Definition perform_all (acts : list action) (a : App) : App :=
  fold_left perform acts a.

End TargetTracker.

(** ** The install banner: [InstallPrompt] *)

(** A [BeforeInstallPromptEvent], named by a number, and the outcome its
    [userChoice] resolves to. *)
Definition BeforeInstallPromptEvent := nat.

Inductive outcome := accepted | dismissed.

(** What the platform answers to [prompt()] and [userChoice]: the promise of
    [prompt()] may be rejected (the handle was used before), and otherwise the
    user's choice arrives. *)
Inductive reply := PromptRejected | UserChoice (o : outcome).

(** The calls the component makes on a handle. *)
Inductive call :=
| PreventDefault (e : BeforeInstallPromptEvent)
| Prompt (e : BeforeInstallPromptEvent).

(** The two state cells, the calls made so far (newest first), and the
    invocations of [handleInstall] that are suspended at an [await], oldest
    first. *)
Record Banner := {
  installPrompt : option BeforeInstallPromptEvent;
  showPrompt : bool;
  calls : list call;
  awaiting : list BeforeInstallPromptEvent
}.

Definition setInstallPrompt (e : option BeforeInstallPromptEvent) (b : Banner) : Banner :=
  {| installPrompt := e; showPrompt := showPrompt b; calls := calls b;
     awaiting := awaiting b |}.

Definition setShowPrompt (v : bool) (b : Banner) : Banner :=
  {| installPrompt := installPrompt b; showPrompt := v; calls := calls b;
     awaiting := awaiting b |}.

Definition called (c : call) (b : Banner) : Banner :=
  {| installPrompt := installPrompt b; showPrompt := showPrompt b;
     calls := c :: calls b; awaiting := awaiting b |}.

Definition banner_initial : Banner :=
  {| installPrompt := None; showPrompt := false; calls := []; awaiting := [] |}.

Definition handleBeforeInstallPrompt (e : BeforeInstallPromptEvent) (b : Banner) : Banner :=
  setShowPrompt true (setInstallPrompt (Some e) (called (PreventDefault e) b)).

(** [handleInstall] up to its first [await]: with no handle it returns at
    once; otherwise it calls [prompt()] and is suspended. *)
Definition handleInstall_begin (b : Banner) : Banner :=
  match installPrompt b with
  | None => b
  | Some e =>
      let b' := called (Prompt e) b in
      {| installPrompt := installPrompt b'; showPrompt := showPrompt b';
         calls := calls b'; awaiting := (awaiting b' ++ [e])%list |}
  end.

(** [handleInstall] from the platform's answer to its end. *)
Definition handleInstall_resume (r : reply) (b : Banner) : Banner :=
  match r with
  | UserChoice accepted => setInstallPrompt None (setShowPrompt false b)
  | UserChoice dismissed => b
  | PromptRejected => b
  end.

Definition handleDismiss (b : Banner) : Banner := setShowPrompt false b.

(** The guard of the render: [if (!showPrompt || !installPrompt) return null]. *)
Definition banner_rendered (b : Banner) : bool :=
  negb (negb (showPrompt b)
        || match installPrompt b with None => true | Some _ => false end).

(** What happens to the component: the platform's signal, a click on one of
    the two buttons (there to click only while the banner is rendered), and
    the platform's answer to the oldest suspended [handleInstall]. *)
Inductive input :=
| beforeinstallprompt (e : BeforeInstallPromptEvent)
| click_install
| click_dismiss
| settle (r : reply).

Definition react (b : Banner) (i : input) : Banner :=
  match i with
  | beforeinstallprompt e => handleBeforeInstallPrompt e b
  | click_install => if banner_rendered b then handleInstall_begin b else b
  | click_dismiss => if banner_rendered b then handleDismiss b else b
  | settle r =>
      match awaiting b with
      | [] => b
      | _ :: rest =>
          handleInstall_resume r
            {| installPrompt := installPrompt b; showPrompt := showPrompt b;
               calls := calls b; awaiting := rest |}
      end
  end.

Definition react_all (inputs : list input) (b : Banner) : Banner :=
  fold_left react inputs b.

(** A whole [handleInstall], from the click to its end, with nothing else
    happening while it waits for the platform's answer [r]. *)
Definition handleInstall (r : reply) (b : Banner) : Banner :=
  match installPrompt b with
  | None => b
  | Some e => handleInstall_resume r (called (Prompt e) b)
  end.

(** ** What the facts are stated with *)

(** *** Hosts and states to compute with *)

(** A host that reads no date beyond the date-time string format, prints
    every object as a plain one, and whose storage always has room. *)
Definition plain_host : Host :=
  {| Date_parse_fallback := fun _ => None;
     host_ToString := fun _ => Ok "[object Object]";
     setItem_fits := fun _ => true |}.

Definition example_Target : Target :=
  {| id := "1700000000000"; text := "Write report"; completed := false;
     createdAt := Some 1700000000000 |}.

Definition second_Target : Target :=
  {| id := "1700000000500"; text := "Exercise"; completed := false;
     createdAt := Some 1700000000500 |}.

(** The state after "Write report" and then "Exercise" were added to an empty
    list. *)
Definition example_App : App :=
  @perform_all plain_host
    [Add "Write report" 1700000000000 1700000000000;
     Add "Exercise" 1700000000500 1700000000500]
    (@mount plain_host None).

(** *** Targets as records *)

(** A target whose [createdAt] is a valid date. *)
Definition valid_Target (t : Target) : bool :=
  match createdAt t with
  | Some ms => in_time_range ms
  | None => false
  end.

(** A target as it is written in the storage item: the record of the
    interface with [createdAt] as the ISO string of the date. *)
Definition json_of_Target (t : Target) : json :=
  JObj [("id", JStr (id t)); ("text", JStr (text t));
        ("completed", JBool (completed t));
        ("createdAt", match createdAt t with
                      | Some ms => JStr (toISOString ms)
                      | None => JNull
                      end)].

(** The target that [addTarget] builds from the input [s] and the two clock
    readings. *)
Definition new_Target (s : string) (now_id now_created : Z) : Target :=
  {| id := integer_toString now_id; text := trim s; completed := false;
     createdAt := Some now_created |}.

(** The target with its [completed] flipped. *)
Definition flipped (t : Target) : Target :=
  {| id := id t; text := text t; completed := negb (completed t);
     createdAt := createdAt t |}.

(** What the handlers do to a list of targets, by id. *)
Definition toggle_in (i : string) (C : list Target) : list Target :=
  map (fun t => if String.eqb (id t) i then flipped t else t) C.

Definition delete_in (i : string) (C : list Target) : list Target :=
  filter (fun t => negb (String.eqb (id t) i)) C.

Definition clear_in (C : list Target) : list Target :=
  filter (fun t => negb (completed t)) C.

(** *** States and logs *)

(** No render is pending: the state between two events. *)
Definition settled (a : App) : Prop := targets_changed a = false.

(** The ids of the targets of a state, as the handlers read them. *)
Definition ids (a : App) : list value :=
  map (fun target => get_prop target "id") (targets a).

(** [target.completed], as a condition. *)
Definition is_completed (target : object) : bool :=
  ToBoolean (get_prop target "completed").

(** The toasts of a log. *)
Fixpoint toasts (l : list event) : list Toast :=
  match l with
  | [] => []
  | EToast t :: l' => t :: toasts l'
  | _ :: l' => toasts l'
  end.

(** The calls of [setItem] of a log. *)
Fixpoint setItem_calls (l : list event) : list stored :=
  match l with
  | [] => []
  | ESetItem v :: l' => v :: setItem_calls l'
  | _ :: l' => setItem_calls l'
  end.

(** The toasts of the component, by name. *)
Definition load_error_toast : Toast :=
  {| title := "Error";
     description := "Could not load your saved targets.";
     variant := Destructive |}.

Definition empty_target_toast : Toast :=
  {| title := "Empty Target";
     description := "Please enter a target before adding.";
     variant := Destructive |}.

Definition added_toast (shown : string) : Toast :=
  {| title := "Target Added!";
     description := (dquote ++ shown ++ dquote ++ " has been added to your list.")%string;
     variant := Default |}.

Definition removed_toast (shown : string) : Toast :=
  {| title := "Target Removed";
     description := (dquote ++ shown ++ dquote ++ " has been deleted.")%string;
     variant := Destructive |}.

Definition nothing_to_clear_toast : Toast :=
  {| title := "Nothing to Clear";
     description := "You have no completed targets to clear.";
     variant := Default |}.

Definition cleared_toast (k : nat) : Toast :=
  {| title := "Completed Targets Cleared";
     description := ("Removed " ++ integer_toString (Z.of_nat k)
                     ++ " completed targets.")%string;
     variant := Default |}.

(** *** Stored values *)

Definition is_JNull (j : json) : bool :=
  match j with JNull => true | _ => false end.

(** The stored values the loading effect gives up on whatever the host: a
    non-empty text that is not JSON, a JSON value that is not an array, and
    an array with a [null] among its elements. *)
Definition rejected (s : stored) : bool :=
  match s with
  | EmptyText => false
  | Unparsable => true
  | JsonText (JArr l) => existsb is_JNull l
  | JsonText _ => true
  end.

Fixpoint json_field (props : list (string * json)) (k : string) : option json :=
  match props with
  | [] => None
  | (k', j) :: props' => if String.eqb k' k then Some j else json_field props' k
  end.

(** Shape validation, in the words of the storage interface (the component
    has no such function): the value is an array of records with a string
    [id], a string [text], a boolean [completed] and a [createdAt] that is a
    string or a number. *)
Definition is_Target_record (j : json) : bool :=
  match j with
  | JObj props =>
      match json_field props "id", json_field props "text",
            json_field props "completed", json_field props "createdAt" with
      | Some (JStr _), Some (JStr _), Some (JBool _), Some (JStr _ | JNum _) => true
      | _, _, _, _ => false
      end
  | _ => false
  end.

Definition passes_shape_validation (s : stored) : bool :=
  match s with
  | JsonText (JArr l) => forallb is_Target_record l
  | _ => false
  end.

(** *** Ids and clock readings *)

(** The clock readings that the additions of a run take their ids from. *)
Fixpoint id_clocks (acts : list action) : list Z :=
  match acts with
  | [] => []
  | Add _ now_id _ :: acts' => now_id :: id_clocks acts'
  | _ :: acts' => id_clocks acts'
  end.

(** The state of a list of targets with distinct ids, each the text of a
    clock reading among [used]. *)
Definition ids_from (used : list Z) (a : App) : Prop :=
  exists C, targets a = map object_of_Target C
            /\ NoDup (map id C)
            /\ forall i, In i (map id C) -> exists n, In n used /\ i = integer_toString n.

(** *** The banner *)

(** The banner is shown only with a handle, and the handle held is one the
    component captured. *)
Definition banner_invariant (b : Banner) : Prop :=
  (showPrompt b = true -> installPrompt b <> None)
  /\ (forall e, installPrompt b = Some e -> In (PreventDefault e) (calls b)).

(** *** The calendar, day by day *)

(** [all_below n z f]: [f] holds on the [n] integers from [z] on. *)
Fixpoint all_below (n : nat) (z : Z) (f : Z -> bool) : bool :=
  match n with
  | O => true
  | S k => if f z then all_below k (z + 1) f else false
  end.

(** The check of one day of an era: the split gives a legal date, and
    [doe_of_civil] leads back to the day. *)
Definition doe_ok (doe : Z) : bool :=
  let '(yoe, m, d) := civil_of_doe doe in
  (0 <=? yoe) && (yoe <=? 399) && (1 <=? m) && (m <=? 12) && (1 <=? d)
  && (d <=? DaysInMonth (yoe + year_carry m) m)
  && (doe_of_civil yoe m d =? doe).

Arguments toISOString : simpl never.
Arguments Date_parse : simpl never.

(** ** More to state facts with *)

(** A host like [plain_host] whose storage has no room at all. *)
Definition full_host : Host :=
  {| Date_parse_fallback := fun _ => None;
     host_ToString := fun _ => Ok "[object Object]";
     setItem_fits := fun _ => false |}.

Definition save_error_toast : Toast :=
  {| title := "Error";
     description := "Could not save your targets.";
     variant := Destructive |}.

(** The storage item is the text of the list in memory. *)
Definition in_sync (a : App) : Prop :=
  storage a = Some (JSON_stringify (targets a)).

(** The stored items after whose load the list is empty or made of records
    of the interface, so that every render goes through: no item, the empty
    string, an item the loading effect gives up on, or an array of records
    with a string [id], a string [text], a boolean [completed] and a string or
    a number as [createdAt]. *)
Definition loads_records_or_nothing (s : option stored) : bool :=
  match s with
  | None => true
  | Some st => negb (truthy_item st) || rejected st || passes_shape_validation st
  end.

(** The [createdAt] of the object is a [Date]. *)
Definition has_Date_createdAt (o : object) : bool :=
  match get_prop o "createdAt" with
  | VDate _ => true
  | _ => false
  end.

(** A string with no white space at its start. *)
Definition starts_clean (s : string) : bool :=
  match s with
  | EmptyString => true
  | String c _ => negb (is_white_space c)
  end.

(** A target as [addTarget] makes them: the text is not empty and is its own
    trim, and [createdAt] is a date with a time value. *)
Definition as_added (t : Target) : bool :=
  negb (is_empty (text t)) && String.eqb (trim (text t)) (text t)
  && match createdAt t with Some _ => true | None => false end.

(** The number of completed targets of a list of records. *)
Definition completed_in (C : list Target) : nat :=
  List.length (filter completed C).

(** An input other than the platform's signal. *)
Definition is_signal (i : input) : bool :=
  match i with beforeinstallprompt _ => true | _ => false end.

(** Every handle [prompt()] was called on was captured before. *)
Definition prompts_captured (b : Banner) : Prop :=
  (forall e, In (Prompt e) (calls b) -> In (PreventDefault e) (calls b))
  /\ (forall e, installPrompt b = Some e -> In (PreventDefault e) (calls b)).

(** A host with another storage: the same language, and [fits] to say which
    values the storage has room for. *)
Definition with_storage (h : Host) (fits : stored -> bool) : Host :=
  {| Date_parse_fallback := @Date_parse_fallback h;
     host_ToString := @host_ToString h;
     setItem_fits := fits |}.

(** *** The percentage of the [useMemo] *)

(** A length as a number. *)
Definition number_of_length (n : Z) : float := PrimFloat.of_uint63 (Uint63.of_Z n).

(** [Math.round], as an integer: the nearest integer, the greater one of the
    two at a tie ([None] for NaN and the infinities; the sign of a zero is
    dropped). *)
Definition Math_round (x : float) : option Z :=
  if PrimFloat.is_nan x || PrimFloat.is_infinity x then None
  else
    match Prim2SF x with
    | SpecFloat.S754_finite s m e =>
        let n := if s then Zneg m else Zpos m in
        Some match e with
             | Z0 => n
             | Zpos p => n * 2 ^ Zpos p
             | Zneg p => (2 * n + 2 ^ Zpos p) / 2 ^ (Zpos p + 1)
             end
    | _ => Some 0
    end.

(** [total > 0 ? Math.round((completed / total) * 100) : 0], in doubles. *)
Definition percentage_of (completed total : Z) : option Z :=
  if 0 <? total
  then Math_round (PrimFloat.mul (PrimFloat.div (number_of_length completed)
                                                (number_of_length total)) 100%float)
  else Some 0.

Definition completionPercentage (a : App) : option Z :=
  percentage_of (Z.of_nat (completedCount a)) (Z.of_nat (totalCount a)).

(** The percentage is an integer from 0 to 100 that is nearest to the exact
    ratio. *)
Definition percentage_ok (total completed : Z) : bool :=
  match percentage_of completed total with
  | Some p => (0 <=? p) && (p <=? 100)
              && (Z.abs (2 * total * p - 200 * completed) <=? total)
  | None => false
  end.

(* ===================================================================== *)
(** * Part II: the facts *)
(* ===================================================================== *)

Local Open Scope list_scope.

(** ** Strings *)

Lemma trimStart_empty (s : string) :
  is_empty (trimStart s) = whitespace_only s.
Proof.
  induction s as [|c s IH]; simpl; [reflexivity|].
  destruct (is_white_space c); simpl; [exact IH | reflexivity].
Qed.

Lemma trimEnd_empty (s : string) :
  is_empty (trimEnd s) = whitespace_only s.
Proof.
  induction s as [|c s IH]; simpl; [reflexivity|].
  destruct (trimEnd s) as [|c' r]; simpl in *.
  - rewrite <- IH. destruct (is_white_space c); reflexivity.
  - rewrite <- IH. now rewrite andb_false_r.
Qed.

Lemma whitespace_only_trimStart (s : string) :
  whitespace_only (trimStart s) = whitespace_only s.
Proof.
  induction s as [|c s IH]; simpl; [reflexivity|].
  destruct (is_white_space c) eqn:E; simpl; [exact IH | now rewrite E].
Qed.

(** [!s.trim()] holds exactly of the strings made of white space only. *)
Lemma trim_empty (s : string) : is_empty (trim s) = whitespace_only s.
Proof.
  unfold trim. now rewrite trimEnd_empty, whitespace_only_trimStart.
Qed.

(** ** Dates *)

Example toISOString_epoch : toISOString 0 = "1970-01-01T00:00:00.000Z".
Proof. reflexivity. Qed.

Example toISOString_2024 : toISOString 1709210096789 = "2024-02-29T12:34:56.789Z".
Proof. reflexivity. Qed.

Example toISOString_min : toISOString (- maxTime) = "-271821-04-20T00:00:00.000Z".
Proof. reflexivity. Qed.

Example toISOString_max : toISOString maxTime = "+275760-09-13T00:00:00.000Z".
Proof. reflexivity. Qed.

Example toISOString_bc : toISOString (-62167219200001) = "-000001-12-31T23:59:59.999Z".
Proof. reflexivity. Qed.

Example parse_date_time_2024 :
  parse_date_time "2024-02-29T12:34:56.789Z" = Some 1709210096789.
Proof. reflexivity. Qed.

Example parse_date_time_illegal : parse_date_time "2023-02-29T12:34:56.789Z" = None.
Proof. reflexivity. Qed.

Lemma all_below_spec (f : Z -> bool) (n : nat) :
  forall z, all_below n z f = true ->
  forall k, z <= k < z + Z.of_nat n -> f k = true.
Proof.
  induction n as [|n IH]; intros z H k Hk; [lia|].
  cbn [all_below] in H. destruct (f z) eqn:E; [|discriminate].
  destruct (Z.eq_dec k z) as [->|Hne]; [exact E|].
  apply (IH (z + 1) H). lia.
Qed.

Lemma doe_ok_era : all_below (Z.to_nat daysPerEra) 0 doe_ok = true.
Proof. vm_cast_no_check (eq_refl true). Qed.

Lemma doe_ok_all (doe : Z) : 0 <= doe < daysPerEra -> doe_ok doe = true.
Proof.
  intros H. apply (all_below_spec doe_ok _ 0 doe_ok_era).
  rewrite Z2Nat.id; [lia | discriminate].
Qed.

Lemma is_leap_year_period (y e : Z) : is_leap_year (y + e * 400) = is_leap_year y.
Proof.
  unfold is_leap_year.
  replace (y + e * 400) with (y + (e * 100) * 4) at 1 by ring.
  replace (y + e * 400) with (y + (e * 4) * 100) at 1 by ring.
  now rewrite !Z_mod_plus_full.
Qed.

Lemma DaysInMonth_period (y e m : Z) : DaysInMonth (y + e * 400) m = DaysInMonth y m.
Proof. unfold DaysInMonth. now rewrite is_leap_year_period. Qed.

Lemma civil_from_days_spec (day : Z) :
  forall y m d, civil_from_days day = (y, m, d) ->
  days_from_civil y m d = day /\ 1 <= m <= 12 /\ 1 <= d <= DaysInMonth y m
  /\ 400 * ((day + epochShift) / daysPerEra) <= y
     <= 400 * ((day + epochShift) / daysPerEra) + 400.
Proof.
  intros y m d. unfold civil_from_days.
  set (z := day + epochShift).
  assert (Hdoe : 0 <= z mod daysPerEra < daysPerEra) by (apply Z.mod_pos_bound; reflexivity).
  pose proof (doe_ok_all _ Hdoe) as Hok. unfold doe_ok in Hok.
  destruct (civil_of_doe (z mod daysPerEra)) as [[yoe m'] d'].
  intros [= <- <- <-].
  repeat (apply andb_prop in Hok; destruct Hok as [Hok ?]).
  rewrite ?Z.leb_le, ?Z.eqb_eq in *.
  split; [|split; [|split]]; try lia.
  - unfold days_from_civil.
    replace (yoe + z / daysPerEra * 400 + year_carry m' - year_carry m')
      with (yoe + z / daysPerEra * 400) by ring.
    rewrite Z_div_plus_full, Z_mod_plus_full by discriminate.
    rewrite Z.div_small, Z.mod_small by lia.
    pose proof (Z.div_mod z daysPerEra ltac:(discriminate)). subst z. lia.
  - replace (yoe + z / daysPerEra * 400 + year_carry m')
      with (yoe + year_carry m' + z / daysPerEra * 400) by ring.
    rewrite DaysInMonth_period. lia.
  - fold z. unfold year_carry. destruct (m' <=? 2); lia.
Qed.

Lemma digit_val_digit_char (d : Z) : 0 <= d < 10 -> digit_val (digit_char d) = Some d.
Proof.
  intros H.
  assert (d = 0 \/ d = 1 \/ d = 2 \/ d = 3 \/ d = 4 \/ d = 5 \/ d = 6 \/ d = 7
          \/ d = 8 \/ d = 9) as Hd by lia.
  repeat (destruct Hd as [-> | Hd]; [reflexivity|]). now subst.
Qed.

Lemma digit_char_not_sign (d : Z) :
  0 <= d < 10 ->
  Ascii.eqb (digit_char d) "+" = false /\ Ascii.eqb (digit_char d) "-" = false.
Proof.
  intros H.
  assert (d = 0 \/ d = 1 \/ d = 2 \/ d = 3 \/ d = 4 \/ d = 5 \/ d = 6 \/ d = 7
          \/ d = 8 \/ d = 9) as Hd by lia.
  repeat (destruct Hd as [-> | Hd]; [split; reflexivity|]). now subst.
Qed.

Lemma read_digits_pad (n : nat) :
  forall z acc rest, 0 <= z ->
  read_digits n acc (pad n z ++ rest) = Some (acc * 10 ^ Z.of_nat n + z mod 10 ^ Z.of_nat n, rest).
Proof.
  induction n as [|n IH]; intros z acc rest Hz.
  - simpl. rewrite Z.mod_1_r. f_equal. f_equal. lia.
  - cbn [pad read_digits append].
    rewrite digit_val_digit_char by (apply Z.mod_pos_bound; lia).
    rewrite IH by exact Hz. f_equal. f_equal.
    rewrite Nat2Z.inj_succ, Z.pow_succ_r by lia.
    rewrite (Z.mul_comm 10), Z.rem_mul_r by lia. ring.
Qed.

Lemma read_digits_pad_small (n : nat) (z : Z) (rest : string) :
  0 <= z < 10 ^ Z.of_nat n ->
  read_digits n 0 (pad n z ++ rest) = Some (z, rest).
Proof.
  intros H. rewrite read_digits_pad by lia. now rewrite Z.mod_small.
Qed.

Lemma read_year_string (y : Z) (rest : string) :
  -999999 <= y <= 999999 ->
  read_year (year_string y ++ rest) = Some (y, rest).
Proof.
  intros H. unfold year_string.
  destruct ((0 <=? y) && (y <=? 9999)) eqn:E.
  - apply andb_prop in E. destruct E as [E1 E2]. rewrite Z.leb_le in E1, E2.
    pose proof (read_digits_pad_small 4 y rest ltac:(simpl; lia)) as R.
    cbn [pad append] in *. unfold read_year.
    destruct (digit_char_not_sign (y / 10 ^ Z.of_nat 3 mod 10)) as [-> ->];
      [apply Z.mod_pos_bound; lia | exact R].
  - assert (y < 0 \/ 9999 < y) as [Hn|Hp].
    { apply andb_false_iff in E. rewrite !Z.leb_gt in E. lia. }
    + destruct (Z.ltb_spec y 0); [|lia]. cbn [append read_year].
      change (Ascii.eqb "-" "+") with false. change (Ascii.eqb "-" "-") with true. cbv iota.
      rewrite read_digits_pad_small by (simpl; lia). cbn [obind fst snd].
      destruct (Z.eqb_spec (Z.abs y) 0); [lia|]. f_equal. f_equal. lia.
    + destruct (Z.ltb_spec y 0); [lia|]. cbn [append read_year].
      change (Ascii.eqb "+" "+") with true. cbv iota.
      rewrite read_digits_pad_small by (simpl; lia). f_equal. f_equal. lia.
Qed.

Lemma time_fields (r : Z) :
  0 <= r < msPerDay ->
  0 <= r / 3600000 <= 23 /\ 0 <= r / 60000 mod 60 <= 59
  /\ 0 <= r / 1000 mod 60 <= 59 /\ 0 <= r mod 1000 <= 999
  /\ MakeTime (r / 3600000) (r / 60000 mod 60) (r / 1000 mod 60) (r mod 1000) = r.
Proof.
  unfold msPerDay, MakeTime. intros H.
  pose proof (Z.div_mod r 3600000 ltac:(lia)).
  pose proof (Z.mod_pos_bound r 3600000 ltac:(lia)).
  pose proof (Z.div_mod r 60000 ltac:(lia)).
  pose proof (Z.mod_pos_bound r 60000 ltac:(lia)).
  pose proof (Z.div_mod r 1000 ltac:(lia)).
  pose proof (Z.mod_pos_bound r 1000 ltac:(lia)).
  pose proof (Z.div_mod (r / 60000) 60 ltac:(lia)).
  pose proof (Z.mod_pos_bound (r / 60000) 60 ltac:(lia)).
  pose proof (Z.div_mod (r / 1000) 60 ltac:(lia)).
  pose proof (Z.mod_pos_bound (r / 1000) 60 ltac:(lia)).
  assert (r / 60000 / 60 = r / 3600000) by (rewrite Z.div_div by lia; reflexivity).
  assert (r / 1000 / 60 = r / 60000) by (rewrite Z.div_div by lia; reflexivity).
  lia.
Qed.

Lemma DaysInMonth_le_31 (y m : Z) : DaysInMonth y m <= 31.
Proof.
  unfold DaysInMonth.
  destruct (m =? 2); [destruct (is_leap_year y); lia|].
  destruct ((m =? 4) || (m =? 6) || (m =? 9) || (m =? 11)); lia.
Qed.

Lemma expect_same (c : ascii) (s : string) : expect c (String c s) = Some s.
Proof. unfold expect. now rewrite Ascii.eqb_refl. Qed.

(** [Date.parse] reads back what [toISOString] writes. *)
Lemma parse_toISOString (t : Z) :
  in_time_range t = true -> parse_date_time (toISOString t) = Some t.
Proof.
  intros Hr. pose proof Hr as Hr'.
  unfold in_time_range in Hr'. apply andb_prop in Hr'. destruct Hr' as [Hlo Hhi].
  rewrite Z.leb_le in Hlo, Hhi. unfold maxTime in Hlo, Hhi.
  unfold toISOString.
  destruct (civil_from_days (t / msPerDay)) as [[y m] d] eqn:E.
  apply civil_from_days_spec in E. destruct E as (Hday & Hm & Hd & Hy).
  pose proof (DaysInMonth_le_31 y m) as H31.
  assert (Hr0 : 0 <= t mod msPerDay < msPerDay) by (apply Z.mod_pos_bound; reflexivity).
  destruct (time_fields _ Hr0) as (Hh & Hmi & Hs & Hms & Htime).
  assert (Hyb : -999999 <= y <= 999999).
  { unfold msPerDay, epochShift, daysPerEra in *.
    pose proof (Z.div_mod t 86400000 ltac:(lia)).
    pose proof (Z.div_mod (t / 86400000 + 719468) 146097 ltac:(lia)).
    pose proof (Z.mod_pos_bound (t / 86400000 + 719468) 146097 ltac:(lia)).
    lia. }
  unfold parse_date_time.
  rewrite read_year_string by exact Hyb.
  repeat (cbn [obind fst snd]; rewrite expect_same; cbn [obind fst snd];
          rewrite read_digits_pad_small by (simpl; lia)).
  cbn [obind fst snd]. rewrite (expect_same "Z" ""). cbn [obind fst snd is_empty andb].
  rewrite Htime, Hday.
  repeat match goal with
         | |- context [?a <=? ?b] =>
             destruct (Z.leb_spec a b); [|lia]
         end.
  cbn [andb]. unfold MakeDate.
  replace (t / msPerDay * msPerDay + t mod msPerDay) with t
    by (pose proof (Z.div_mod t msPerDay ltac:(discriminate)); lia).
  now rewrite Hr.
Qed.

(** ** Saving and loading *)

Section PersistenceFacts.
Context {host : Host}.

Lemma Date_parse_toISOString (t : Z) :
  in_time_range t = true -> Date_parse (toISOString t) = Some t.
Proof. intros H. unfold Date_parse. now rewrite parse_toISOString. Qed.

Lemma to_json_Target (t : Target) :
  to_json (VObj (object_of_Target t)) = Some (json_of_Target t).
Proof. destruct t as [i x c [ms|]]; reflexivity. Qed.

(** What the saving effect writes for a list of targets: the array of their
    records, [createdAt] as a string. *)
Lemma JSON_stringify_Targets (C : list Target) :
  JSON_stringify (map object_of_Target C) = JsonText (JArr (map json_of_Target C)).
Proof.
  unfold JSON_stringify. cbn [to_json]. do 2 f_equal.
  rewrite !map_map. apply map_ext. intros t. now rewrite to_json_Target.
Qed.

Lemma restore_json_of_Target (t : Target) :
  valid_Target t = true ->
  restore (of_json (json_of_Target t)) = Ok (object_of_Target t).
Proof.
  destruct t as [i x c [ms|]]; unfold valid_Target; cbn [createdAt]; [|discriminate].
  intros H. unfold restore, json_of_Target. cbn [createdAt id text completed].
  cbn. now rewrite Date_parse_toISOString.
Qed.

Lemma mapM_restore_Targets (C : list Target) :
  forallb valid_Target C = true ->
  mapM restore (map of_json (map json_of_Target C)) = Ok (map object_of_Target C).
Proof.
  induction C as [|t C IH]; intros H; [reflexivity|].
  cbn [forallb] in H. apply andb_prop in H. destruct H as [Ht HC].
  cbn [map mapM]. rewrite restore_json_of_Target by exact Ht.
  cbn [bind]. now rewrite IH.
Qed.

(** The loading effect on what the saving effect wrote for valid targets. *)
Lemma load_effect_Targets (C : list Target) (a : App) :
  forallb valid_Target C = true ->
  storage a = Some (JsonText (JArr (map json_of_Target C))) ->
  load_effect a = setTargets (fun _ => map object_of_Target C) a.
Proof.
  intros HC Hs. unfold load_effect. rewrite Hs. cbn [truthy_item JSON_parse bind of_json call_map].
  now rewrite mapM_restore_Targets.
Qed.

Lemma save_effect_fits (ts : list object) (a : App) :
  setItem_fits (JSON_stringify ts) = true ->
  save_effect ts a =
  {| targets := targets a; newTarget := newTarget a;
     storage := Some (JSON_stringify ts);
     log := ESetItem (JSON_stringify ts) :: log a;
     targets_changed := targets_changed a |}.
Proof. intros H. unfold save_effect, setItem. now rewrite H. Qed.

Lemma targets_save_effect (ts : list object) (a : App) :
  targets (save_effect ts a) = targets a.
Proof. unfold save_effect, setItem. now destruct (setItem_fits _). Qed.

Lemma newTarget_save_effect (ts : list object) (a : App) :
  newTarget (save_effect ts a) = newTarget a.
Proof. unfold save_effect, setItem. now destruct (setItem_fits _). Qed.

Lemma targets_changed_save_effect (ts : list object) (a : App) :
  targets_changed (save_effect ts a) = targets_changed a.
Proof. unfold save_effect, setItem. now destruct (setItem_fits _). Qed.

Lemma targets_render (a : App) : targets (render a) = targets a.
Proof.
  unfold render. destruct (targets_changed a); [|reflexivity].
  now rewrite targets_save_effect.
Qed.

Lemma newTarget_render (a : App) : newTarget (render a) = newTarget a.
Proof.
  unfold render. destruct (targets_changed a); [|reflexivity].
  now rewrite newTarget_save_effect.
Qed.

(** Every handler ends with a render, after which none is pending. *)
Lemma settled_render (a : App) : settled (render a).
Proof.
  unfold settled, render. destruct (targets_changed a) eqn:E; [|exact E].
  now rewrite targets_changed_save_effect.
Qed.

Lemma render_settled (a : App) : settled a -> render a = a.
Proof. unfold settled, render. now intros ->. Qed.

Lemma settled_mount (s : option stored) : settled (mount s).
Proof. apply settled_render. Qed.

Lemma settled_perform (a : App) (act : action) : settled (perform a act).
Proof. destruct act; apply settled_render. Qed.

(** The events a save adds to the log: the call of [setItem] and, when it
    throws, the console message and the toast. *)
Lemma log_save_effect (ts : list object) (a : App) :
  exists evs, log (save_effect ts a) = evs ++ log a
              /\ setItem_calls evs = [JSON_stringify ts].
Proof.
  unfold save_effect, setItem. destruct (setItem_fits _).
  - now exists [ESetItem (JSON_stringify ts)].
  - now eexists [EToast _; EConsoleError _ _; ESetItem (JSON_stringify ts)].
Qed.

End PersistenceFacts.

(** C1. Saving a collection of valid targets and loading it back gives the
    same collection: the storage item holds the array of the records with
    [createdAt] as the ISO string of the date, and the loading effect (alone,
    and within a mount) makes each string a date again and raises no toast.
    The targets are valid when their [createdAt] is a valid date, and the
    save is one the storage has room for. *)
Theorem persist_load_round_trip {host : Host} (C : list Target) (a : App) :
  forallb valid_Target C = true ->
  setItem_fits (JSON_stringify (map object_of_Target C)) = true ->
  let saved := save_effect (map object_of_Target C) a in
  storage saved = Some (JsonText (JArr (map json_of_Target C)))
  /\ targets (load_effect (initial (storage saved))) = map object_of_Target C
  /\ toasts (log (load_effect (initial (storage saved)))) = []
  /\ targets (mount (storage saved)) = map object_of_Target C.
Proof.
  intros HC Hfit saved. subst saved.
  rewrite save_effect_fits by exact Hfit. cbn [storage].
  rewrite JSON_stringify_Targets.
  split; [reflexivity|].
  rewrite (load_effect_Targets C) by (exact HC || reflexivity).
  repeat split.
  unfold mount. rewrite targets_render, targets_save_effect.
  now rewrite (load_effect_Targets C) by (exact HC || reflexivity).
Qed.

Lemma persist_load_round_trip_witness :
  let C := [example_Target] in
  let saved := @save_effect plain_host (map object_of_Target C) (initial None) in
  (forallb valid_Target C = true
   /\ @setItem_fits plain_host (JSON_stringify (map object_of_Target C)) = true)
  /\ storage saved = Some (JsonText (JArr (map json_of_Target C)))
  /\ targets (@load_effect plain_host (initial (storage saved))) = map object_of_Target C
  /\ toasts (log (@load_effect plain_host (initial (storage saved)))) = []
  /\ targets (@mount plain_host (storage saved)) = map object_of_Target C.
Proof.
  split; [split; reflexivity|].
  apply (@persist_load_round_trip plain_host [example_Target] (initial None));
    reflexivity.
Defined.

(** ** Adding a target *)

(** C2. For an input [s] that is not empty once trimmed, [addTarget] makes
    the list one longer: the new target comes first, with [completed] false,
    the trimmed input as its text and the clock reading as [createdAt], and
    the targets that were there follow it in their order. The input is
    cleared, the addition is announced, and the render that follows saves the
    new list. *)
Theorem addTarget_prepends {host : Host} (s : string) (now_id now_created : Z) (a : App) :
  is_empty (trim s) = false ->
  let a' := addTarget now_id now_created (onChange s a) in
  totalCount a' = S (totalCount a)
  /\ targets a' = object_of_Target (new_Target s now_id now_created) :: targets a
  /\ get_prop (hd [] (targets a')) "completed" = VBool false
  /\ get_prop (hd [] (targets a')) "text" = VStr (trim s)
  /\ get_prop (hd [] (targets a')) "createdAt" = VDate (Some now_created)
  /\ newTarget a' = ""
  /\ exists evs, log a' = evs ++ EToast (added_toast (trim s)) :: log a
                 /\ setItem_calls evs = [JSON_stringify (targets a')].
Proof.
  intros Hs a'. subst a'. unfold addTarget, totalCount.
  cbn [onChange setNewTarget newTarget]. rewrite Hs.
  rewrite targets_render, newTarget_render.
  cbn [toast emit setNewTarget setTargets targets newTarget hd].
  repeat split.
  unfold render. cbn [toast emit setNewTarget setTargets targets_changed targets
                      newTarget storage log].
  match goal with
  | |- context [save_effect ?ts ?x] =>
      destruct (log_save_effect ts x) as (evs & Hlog & Hcalls)
  end.
  exists evs. split; [exact Hlog | exact Hcalls].
Qed.

Lemma addTarget_prepends_witness :
  let a := @mount plain_host None in
  let a' := @addTarget plain_host 1700000000000 1700000000001 (onChange "  Exercise " a) in
  is_empty (trim "  Exercise ") = false
  /\ totalCount a' = S (totalCount a)
  /\ targets a' = object_of_Target (new_Target "  Exercise " 1700000000000 1700000000001)
                  :: targets a.
Proof.
  split; [reflexivity|].
  pose proof (@addTarget_prepends plain_host "  Exercise " 1700000000000 1700000000001
                (@mount plain_host None) eq_refl) as H.
  split; [exact (proj1 H) | exact (proj1 (proj2 H))].
Defined.

(** C3. When the input [s] is empty or made of white space only, [addTarget]
    leaves the targets, the storage and the input as they are and raises the
    destructive toast of the validation; nothing else happens. *)
Theorem addTarget_blank_rejected {host : Host} (s : string) (now_id now_created : Z)
    (a : App) :
  settled a ->
  whitespace_only s = true ->
  let a' := addTarget now_id now_created (onChange s a) in
  targets a' = targets a
  /\ newTarget a' = s
  /\ storage a' = storage a
  /\ variant empty_target_toast = Destructive
  /\ log a' = EToast empty_target_toast :: log a.
Proof.
  intros Hq Hs a'. subst a'. unfold addTarget.
  cbn [onChange setNewTarget newTarget].
  rewrite trim_empty, Hs. rewrite render_settled by exact Hq.
  repeat split.
Qed.

Lemma addTarget_blank_rejected_witness :
  let a := @mount plain_host None in
  let a' := @addTarget plain_host 1700000000000 1700000000001 (onChange "   " a) in
  (settled a /\ whitespace_only "   " = true)
  /\ targets a' = targets a
  /\ newTarget a' = "   "
  /\ storage a' = storage a
  /\ variant empty_target_toast = Destructive
  /\ log a' = EToast empty_target_toast :: log a.
Proof.
  split; [split; reflexivity|].
  apply (@addTarget_blank_rejected plain_host "   " 1700000000000 1700000000001
           (@mount plain_host None)); reflexivity.
Defined.

(** ** Loading what was not saved by the component *)

Section LoadingFacts.
Context {host : Host}.

Lemma mapM_restore_null (l : list json) :
  existsb is_JNull l = true -> exists e, mapM restore (map of_json l) = Throw e.
Proof.
  induction l as [|j l IH]; cbn [existsb map mapM]; [discriminate|].
  intros H. destruct (restore (of_json j)) as [o|e] eqn:R; [|now exists e].
  cbn [bind]. destruct (is_JNull j) eqn:N.
  - destruct j; discriminate.
  - destruct (IH H) as [e ->]. now exists e.
Qed.

Lemma load_effect_throws (s : stored) (a : App) :
  storage a = Some s -> rejected s = true ->
  exists e, load_effect a
            = toast load_error_toast (console_error "Error loading targets:" e a).
Proof.
  intros Hs Hr. unfold load_effect. rewrite Hs.
  destruct s as [| |j]; [discriminate | now exists SyntaxError |].
  cbn [truthy_item JSON_parse bind].
  destruct j as [| b | x | x | l | props];
    try (now exists TypeError).
  cbn [of_json call_map]. cbn [rejected] in Hr.
  destruct (mapM_restore_null l Hr) as [e ->]. now exists e.
Qed.

(** The three ways the loading effect ends: nothing to load (no item, or
    the empty string), the list set to what was read, or the exception caught
    and shown. *)
Lemma load_effect_cases (a : App) :
  load_effect a = a
  \/ (exists loaded, load_effect a = setTargets (fun _ => loaded) a)
  \/ (exists e, load_effect a
                = toast load_error_toast (console_error "Error loading targets:" e a)).
Proof.
  unfold load_effect. destruct (storage a) as [s|]; [|now left].
  destruct (truthy_item s); [|now left].
  destruct (bind (JSON_parse s) _) as [loaded|e].
  - right. left. now exists loaded.
  - right. right. now exists e.
Qed.

End LoadingFacts.

(** C4, as the component has it. A stored value that is a non-empty text
    [JSON.parse] rejects, or a JSON value that is not an array, or an array
    with a [null] element, makes the loading effect raise its destructive
    toast once and leave the list empty; the exception is caught in the
    effect, whose result is a state. *)
Theorem load_effect_rejected {host : Host} (s : stored) :
  rejected s = true ->
  let a := load_effect (initial (Some s)) in
  targets a = []
  /\ toasts (log a) = [load_error_toast]
  /\ targets (mount (Some s)) = [].
Proof.
  intros Hr a. subst a.
  destruct (load_effect_throws s (initial (Some s)) eq_refl Hr) as [e He].
  unfold mount. rewrite targets_render, targets_save_effect, He.
  repeat split.
Qed.

Lemma load_effect_rejected_witness :
  let a := @load_effect plain_host (initial (Some (JsonText (JObj [])))) in
  rejected (JsonText (JObj [])) = true
  /\ targets a = []
  /\ toasts (log a) = [load_error_toast]
  /\ targets (@mount plain_host (Some (JsonText (JObj [])))) = [].
Proof.
  split; [reflexivity|].
  apply (@load_effect_rejected plain_host (JsonText (JObj []))). reflexivity.
Defined.

(** C4 fails as stated: the array with one empty object does not pass a
    shape validation, and the loading effect takes it as a list of one
    target, with an invalid date, and raises no toast. *)
Lemma load_effect_no_shape_validation :
  let s := JsonText (JArr [JObj []]) in
  let a := @load_effect plain_host (initial (Some s)) in
  passes_shape_validation s = false
  /\ targets a = [[("createdAt", VDate None)]]
  /\ toasts (log a) = [].
Proof. repeat split. Qed.

(** The empty string is no JSON text either, and the loading effect passes
    it over in silence: [if (savedTargets)] takes it for an absent item. *)
Example load_effect_empty_text :
  @load_effect plain_host (initial (Some EmptyText)) = initial (Some EmptyText).
Proof. reflexivity. Qed.

(** A target whose date is invalid does not come back as it was saved: its
    [createdAt] is written as [null], which [new Date] reads as the epoch. *)
Example invalid_date_comes_back_as_epoch :
  let t := {| id := "1"; text := "a"; completed := false; createdAt := None |} in
  let saved := @save_effect plain_host [object_of_Target t] (initial None) in
  targets (@load_effect plain_host (initial (storage saved)))
  = [object_of_Target {| id := "1"; text := "a"; completed := false;
                         createdAt := Some 0 |}].
Proof. reflexivity. Qed.

(** The scenario of the two additions: the newer target comes first, and
    after it is toggled one of the two targets is completed. *)
Example two_additions_then_toggle :
  targets example_App = map object_of_Target [second_Target; example_Target]
  /\ completedCount (@toggleTarget plain_host "1700000000500" example_App) = 1%nat
  /\ totalCount (@toggleTarget plain_host "1700000000500" example_App) = 2%nat.
Proof. vm_compute. repeat split. Qed.

(** ** Handlers on lists of targets

    On the objects of targets the handlers act as the typed functions
    below. *)

Lemma filter_map_objects (f : object -> bool) (C : list Target) :
  filter f (map object_of_Target C)
  = map object_of_Target (filter (fun t => f (object_of_Target t)) C).
Proof.
  induction C as [|t C IH]; [reflexivity|].
  cbn [map filter]. destruct (f (object_of_Target t)); cbn [map]; now rewrite IH.
Qed.

Lemma toggle_objects (i : string) (C : list Target) :
  map (fun target : object =>
         if strict_eq_string (get_prop target "id") i
         then set_prop target "completed"
                (VBool (negb (ToBoolean (get_prop target "completed"))))
         else target) (map object_of_Target C)
  = map object_of_Target (toggle_in i C).
Proof.
  unfold toggle_in. rewrite !map_map. apply map_ext. intros t.
  change (strict_eq_string (get_prop (object_of_Target t) "id") i)
    with (String.eqb (id t) i).
  now destruct (String.eqb (id t) i).
Qed.

Lemma delete_objects (i : string) (C : list Target) :
  filter (fun target : object => negb (strict_eq_string (get_prop target "id") i))
         (map object_of_Target C)
  = map object_of_Target (delete_in i C).
Proof. now rewrite filter_map_objects. Qed.

Lemma clear_objects (C : list Target) :
  filter (fun target : object => negb (ToBoolean (get_prop target "completed")))
         (map object_of_Target C)
  = map object_of_Target (clear_in C).
Proof. now rewrite filter_map_objects. Qed.

Lemma toggle_in_absent (i : string) (C : list Target) :
  ~ In i (map id C) -> toggle_in i C = C.
Proof.
  induction C as [|t C IH]; intros H; [reflexivity|].
  cbn [map In] in H. unfold toggle_in. cbn [map]. fold (toggle_in i C).
  destruct (String.eqb_spec (id t) i) as [E|E]; [tauto|].
  rewrite IH by tauto. reflexivity.
Qed.

Lemma delete_in_absent (i : string) (C : list Target) :
  ~ In i (map id C) -> delete_in i C = C.
Proof.
  induction C as [|t C IH]; intros H; [reflexivity|].
  cbn [map In] in H. unfold delete_in. cbn [filter]. fold (delete_in i C).
  destruct (String.eqb_spec (id t) i) as [E|E]; [tauto|].
  cbn [negb]. rewrite IH by tauto. reflexivity.
Qed.

Lemma NoDup_ids_split (l1 l2 : list Target) (t : Target) :
  NoDup (map id (l1 ++ t :: l2)) ->
  ~ In (id t) (map id l1) /\ ~ In (id t) (map id l2).
Proof.
  rewrite map_app. cbn [map]. intros H. apply NoDup_remove_2 in H.
  rewrite in_app_iff in H. tauto.
Qed.

Lemma toggle_in_split (l1 l2 : list Target) (t : Target) :
  NoDup (map id (l1 ++ t :: l2)) ->
  toggle_in (id t) (l1 ++ t :: l2) = l1 ++ flipped t :: l2.
Proof.
  intros H. destruct (NoDup_ids_split _ _ _ H) as [H1 H2].
  unfold toggle_in. rewrite map_app. cbn [map]. rewrite String.eqb_refl.
  fold (toggle_in (id t) l1). fold (toggle_in (id t) l2).
  now rewrite !toggle_in_absent.
Qed.

Lemma delete_in_split (l1 l2 : list Target) (t : Target) :
  NoDup (map id (l1 ++ t :: l2)) ->
  delete_in (id t) (l1 ++ t :: l2) = l1 ++ l2.
Proof.
  intros H. destruct (NoDup_ids_split _ _ _ H) as [H1 H2].
  unfold delete_in. rewrite filter_app. cbn [filter]. rewrite String.eqb_refl.
  cbn [negb]. fold (delete_in (id t) l1). fold (delete_in (id t) l2).
  now rewrite !delete_in_absent.
Qed.

Lemma find_objects_split (l1 l2 : list Target) (t : Target) :
  ~ In (id t) (map id l1) ->
  find (fun o : object => strict_eq_string (get_prop o "id") (id t))
       (map object_of_Target (l1 ++ t :: l2))
  = Some (object_of_Target t).
Proof.
  induction l1 as [|u l1 IH]; intros H; cbn [app map find].
  - change (strict_eq_string (get_prop (object_of_Target t) "id") (id t))
      with (String.eqb (id t) (id t)).
    now rewrite String.eqb_refl.
  - change (strict_eq_string (get_prop (object_of_Target u) "id") (id t))
      with (String.eqb (id u) (id t)).
    cbn [map In] in H. destruct (String.eqb_spec (id u) (id t)); [tauto|].
    apply IH. tauto.
Qed.

(** ** Toggling and deleting *)


Lemma example_App_ids : NoDup (map id [second_Target; example_Target]).
Proof. repeat constructor; cbn; intuition discriminate. Qed.



Section DeleteFacts.
Context {host : Host}.

Lemma targets_deleteTarget (i : string) (a : App) :
  targets (deleteTarget i a)
  = filter (fun target => negb (strict_eq_string (get_prop target "id") i)) (targets a).
Proof.
  unfold deleteTarget. rewrite targets_render. now destruct (ToString _).
Qed.

(** The log of [deleteTarget] when the text to show is a string: the toast,
    then the save of the render that follows. *)
Lemma log_deleteTarget (i : string) (a : App) (o : object) (shown : string) :
  find (fun t => strict_eq_string (get_prop t "id") i) (targets a) = Some o ->
  get_prop o "text" = VStr shown ->
  exists evs, log (deleteTarget i a) = evs ++ EToast (removed_toast shown) :: log a
              /\ setItem_calls evs = [JSON_stringify (targets (deleteTarget i a))].
Proof.
  intros Hf Ht. rewrite targets_deleteTarget.
  unfold deleteTarget. rewrite Hf, Ht. cbn [ToString].
  unfold render. cbn [toast emit setTargets targets_changed targets newTarget storage log].
  match goal with
  | |- context [save_effect ?ts ?x] =>
      destruct (log_save_effect ts x) as (evs & Hlog & Hcalls)
  end.
  exists evs. split; [exact Hlog | exact Hcalls].
Qed.

End DeleteFacts.

(** C6, as the component has it. On a list of targets, [deleteTarget] removes
    the targets with the given id and keeps the others in their order. Ids
    being distinct, it removes exactly the one target that has the id, and
    raises a toast that names the text of that target; with an id that no
    target has, the list stays as it is. *)
Theorem deleteTarget_removes_one {host : Host} (C : list Target) (i : string) (a : App) :
  targets a = map object_of_Target C ->
  NoDup (map id C) ->
  let a' := deleteTarget i a in
  targets a' = map object_of_Target (delete_in i C)
  /\ (forall l1 t l2, C = l1 ++ t :: l2 -> id t = i ->
      targets a' = map object_of_Target (l1 ++ l2)
      /\ exists evs, log a' = evs ++ EToast (removed_toast (text t)) :: log a
                     /\ setItem_calls evs = [JSON_stringify (targets a')])
  /\ (~ In i (map id C) -> targets a' = targets a).
Proof.
  intros Ha Hnd a'. subst a'.
  assert (Ht : targets (deleteTarget i a) = map object_of_Target (delete_in i C))
    by (now rewrite targets_deleteTarget, Ha, delete_objects).
  split; [exact Ht|]. split.
  - intros l1 t l2 -> <-.
    destruct (NoDup_ids_split _ _ _ Hnd) as [H1 H2].
    split; [now rewrite Ht, delete_in_split|].
    apply (log_deleteTarget (id t) a (object_of_Target t) (text t)); [|reflexivity].
    rewrite Ha. now apply find_objects_split.
  - intros Hi. now rewrite Ht, delete_in_absent.
Qed.

Lemma deleteTarget_removes_one_witness :
  let C := [second_Target; example_Target] in
  (targets example_App = map object_of_Target C /\ NoDup (map id C))
  /\ targets (@deleteTarget plain_host "1700000000500" example_App)
     = map object_of_Target [example_Target]
  /\ targets (@deleteTarget plain_host "none" example_App) = targets example_App.
Proof.
  split; [split; [vm_compute; reflexivity | exact example_App_ids]|].
  pose proof (@deleteTarget_removes_one plain_host [second_Target; example_Target]
                "1700000000500" example_App eq_refl example_App_ids) as H1.
  split.
  - exact (proj1 (proj1 (proj2 H1) [] second_Target [example_Target] eq_refl eq_refl)).
  - vm_compute. reflexivity.
Defined.

(** C6 fails as stated: with an id that no target has, [deleteTarget] is not
    a no-op. It raises the toast of a removal, which shows [undefined] for
    the text, and the render that follows saves the list again. *)
Lemma deleteTarget_absent_not_noop :
  let a := @mount plain_host None in
  let a' := @deleteTarget plain_host "1700000000000" a in
  targets a = []
  /\ targets a' = []
  /\ log a' = ESetItem (JsonText (JArr [])) :: EToast (removed_toast "undefined") :: log a.
Proof. repeat split. Qed.

(** ** Clearing the completed targets *)

Lemma filter_length_split {A} (f : A -> bool) (l : list A) :
  (List.length (filter (fun x => negb (f x)) l) + List.length (filter f l)
   = List.length l)%nat.
Proof.
  induction l as [|x l IH]; [reflexivity|].
  cbn [filter]. destruct (f x); cbn [negb List.length]; lia.
Qed.

Lemma filter_filter_negb {A} (f : A -> bool) (l : list A) :
  filter f (filter (fun x => negb (f x)) l) = [].
Proof.
  induction l as [|x l IH]; [reflexivity|].
  cbn [filter]. destruct (f x) eqn:E; cbn [negb filter]; [exact IH|].
  now rewrite E.
Qed.

(** C7. With no completed target, [clearCompleted] leaves the list and the
    storage as they are, calls no [setItem] and raises the default toast
    that there is nothing to clear. With [k > 0] completed targets it keeps
    the targets that are not completed, in their order, so that none of the
    result is completed and the list is [k] shorter; it raises the toast that
    reports [k], and the render that follows saves the new list. *)
Theorem clearCompleted_removes_completed {host : Host} (a : App) :
  settled a ->
  let k := completedCount a in
  let a' := clearCompleted a in
  (k = 0%nat ->
     targets a' = targets a /\ storage a' = storage a
     /\ log a' = EToast nothing_to_clear_toast :: log a)
  /\ (k <> 0%nat ->
      targets a' = filter (fun target => negb (is_completed target)) (targets a)
      /\ completedCount a' = 0%nat
      /\ (totalCount a' + k = totalCount a)%nat
      /\ exists evs, log a' = evs ++ EToast (cleared_toast k) :: log a
                     /\ setItem_calls evs = [JSON_stringify (targets a')]).
Proof.
  intros Hq k a'. subst k a'. unfold clearCompleted, completedCount, totalCount.
  fold is_completed.
  set (k := List.length (filter is_completed (targets a))).
  split; intros Hk.
  - rewrite Hk. cbn [Nat.eqb]. rewrite render_settled by exact Hq. repeat split.
  - destruct (Nat.eqb_spec k 0) as [E|_]; [contradiction|].
    rewrite targets_render. cbn [toast emit setTargets targets].
    split; [reflexivity|]. split; [now rewrite filter_filter_negb|].
    split; [apply filter_length_split|].
    unfold render. cbn [toast emit setTargets targets_changed targets newTarget storage log].
    match goal with
    | |- context [save_effect ?ts ?x] =>
        destruct (log_save_effect ts x) as (evs & Hlog & Hcalls)
    end.
    exists evs. split; [exact Hlog | exact Hcalls].
Qed.

Lemma clearCompleted_removes_completed_witness :
  let a := @toggleTarget plain_host "1700000000000" example_App in
  settled a
  /\ completedCount a = 1%nat
  /\ targets (@clearCompleted plain_host a) = map object_of_Target [second_Target]
  /\ completedCount (@clearCompleted plain_host a) = 0%nat.
Proof.
  split; [vm_compute; reflexivity|]. split; [vm_compute; reflexivity|].
  pose proof (@clearCompleted_removes_completed plain_host
                (@toggleTarget plain_host "1700000000000" example_App)
                (settled_render _)) as H.
  destruct H as [_ H].
  specialize (H ltac:(vm_compute; discriminate)).
  split; [rewrite (proj1 H); vm_compute; reflexivity | exact (proj1 (proj2 H))].
Defined.

(** ** The ids *)

Lemma to_int_not_nil (z : Z) :
  Z.to_int z <> Decimal.Pos Decimal.Nil /\ Z.to_int z <> Decimal.Neg Decimal.Nil.
Proof.
  destruct z as [|p|p]; cbn [Z.to_int]; split; try discriminate;
    intros [= H]; exact (DecimalPos.Unsigned.to_uint_nonnil p H).
Qed.

Lemma integer_toString_inj (n m : Z) :
  integer_toString n = integer_toString m -> n = m.
Proof.
  unfold integer_toString. intros H.
  apply DecimalZ.to_int_inj.
  destruct (to_int_not_nil n) as [Hn1 Hn2], (to_int_not_nil m) as [Hm1 Hm2].
  pose proof (NilZero.isi _ Hn1 Hn2) as En.
  pose proof (NilZero.isi _ Hm1 Hm2) as Em.
  rewrite H in En. rewrite En in Em. now injection Em.
Qed.

Section IdFacts.
Context {host : Host}.

Lemma NoDup_map_filter {A B} (g : A -> B) (f : A -> bool) (l : list A) :
  NoDup (map g l) -> NoDup (map g (filter f l)).
Proof.
  induction l as [|x l IH]; cbn [map filter]; [auto|].
  intros H. inversion H as [|? ? Hx Hl]; subst.
  destruct (f x); cbn [map]; [|auto].
  constructor; [|auto]. intros Hin. apply Hx.
  apply in_map_iff in Hin. destruct Hin as (y & <- & Hy).
  apply in_map. apply filter_In in Hy. tauto.
Qed.

Lemma NoDup_map_VStr (l : list string) : NoDup l -> NoDup (map VStr l).
Proof.
  induction 1 as [|x l Hx Hl IH]; cbn [map]; constructor; [|exact IH].
  intros Hin. apply in_map_iff in Hin. destruct Hin as (y & [= ->] & Hy). auto.
Qed.

Lemma ids_toggle_in (i : string) (C : list Target) :
  map id (toggle_in i C) = map id C.
Proof.
  unfold toggle_in. rewrite map_map. apply map_ext. intros t.
  now destruct (String.eqb (id t) i).
Qed.

Lemma targets_clearCompleted (a : App) :
  targets (clearCompleted a) = targets a
  \/ targets (clearCompleted a)
     = filter (fun target => negb (ToBoolean (get_prop target "completed"))) (targets a).
Proof.
  unfold clearCompleted. rewrite targets_render.
  destruct (Nat.eqb _ 0); [now left | now right].
Qed.

Lemma ids_from_perform (used : list Z) (a : App) (act : action) :
  ids_from used a ->
  (forall n, In n (id_clocks [act]) -> ~ In n used) ->
  ids_from (id_clocks [act] ++ used) (perform a act).
Proof.
  intros (C & Ha & Hnd & Hin) Hfresh.
  unfold ids_from.
  destruct act as [s now_id now_created | i | i |]; cbn [id_clocks app perform].
  - unfold addTarget. rewrite targets_render.
    cbn [onChange setNewTarget newTarget].
    destruct (is_empty (trim s)).
    + cbn [toast emit onChange setNewTarget targets]. exists C. repeat split; auto.
      intros i Hi. destruct (Hin i Hi) as (n & Hn & ->). exists n. cbn [In]. auto.
    + cbn [toast emit onChange setNewTarget setTargets targets]. rewrite Ha.
      exists (new_Target s now_id now_created :: C). split; [reflexivity|].
      split.
      * cbn [map new_Target id]. constructor; [|exact Hnd].
        intros Hi. destruct (Hin _ Hi) as (n & Hn & E).
        apply integer_toString_inj in E. subst n.
        apply (Hfresh now_id); cbn; auto.
      * cbn [map new_Target id In]. intros i [<- | Hi].
        -- exists now_id. auto.
        -- destruct (Hin i Hi) as (n & Hn & ->). exists n. auto.
  - unfold toggleTarget. rewrite targets_render. cbn [setTargets targets].
    rewrite Ha, toggle_objects. exists (toggle_in i C).
    rewrite ids_toggle_in. auto.
  - rewrite targets_deleteTarget, Ha, delete_objects. exists (delete_in i C).
    split; [reflexivity|]. split; [now apply NoDup_map_filter|].
    intros j Hj. apply Hin. unfold delete_in in Hj.
    apply in_map_iff in Hj. destruct Hj as (t & <- & Ht).
    apply in_map. apply filter_In in Ht. tauto.
  - destruct (targets_clearCompleted a) as [-> | ->].
    + exists C. auto.
    + rewrite Ha, clear_objects. exists (clear_in C).
      split; [reflexivity|]. split; [now apply NoDup_map_filter|].
      intros j Hj. apply Hin. unfold clear_in in Hj.
      apply in_map_iff in Hj. destruct Hj as (t & <- & Ht).
      apply in_map. apply filter_In in Ht. tauto.
Qed.

Lemma id_clocks_cons (act : action) (acts : list action) :
  id_clocks (act :: acts) = id_clocks [act] ++ id_clocks acts.
Proof. now destruct act. Qed.

Lemma ids_from_perform_all (acts : list action) :
  forall used a,
  ids_from used a ->
  NoDup (id_clocks acts) ->
  (forall n, In n (id_clocks acts) -> ~ In n used) ->
  exists used', ids_from used' (perform_all acts a).
Proof.
  induction acts as [|act acts IH]; intros used a Ha Hnd Hfresh.
  - now exists used.
  - cbn [perform_all fold_left]. rewrite id_clocks_cons in Hnd, Hfresh.
    apply (IH (id_clocks [act] ++ used)).
    + apply ids_from_perform; [exact Ha|].
      intros n Hn. apply Hfresh. apply in_or_app. now left.
    + now apply NoDup_app_remove_l in Hnd.
    + intros n Hn Hu. apply in_app_or in Hu. destruct Hu as [Hu|Hu].
      * destruct act; cbn [id_clocks In] in Hu, Hnd; try tauto.
        destruct Hu as [<-|[]]. cbn [app] in Hnd. inversion Hnd; tauto.
      * apply (Hfresh n); [apply in_or_app; now right | exact Hu].
Qed.

(** X20. As long as no two additions read the same clock value, the ids of the
    list are distinct, whatever else is done to it. *)
Lemma ids_distinct_when_clocks_differ (acts : list action) :
  NoDup (id_clocks acts) ->
  NoDup (ids (perform_all acts (mount None))).
Proof.
  intros Hnd.
  destruct (ids_from_perform_all acts [] (mount None)) as (used & C & HC & HndC & _).
  - exists []. split; [|split; [constructor | intros i []]].
    unfold mount. now rewrite targets_render, targets_save_effect.
  - exact Hnd.
  - intros n _ [].
  - unfold ids. rewrite HC, map_map.
    change (map (fun t => get_prop (object_of_Target t) "id") C)
      with (map (fun t => VStr (id t)) C).
    rewrite <- (map_map id VStr).
    apply NoDup_map_VStr. exact HndC.
Qed.

End IdFacts.

(** C5 does not hold of the component. The id of a target is the text of
    the clock reading of its addition, and two additions that read the same
    value make two targets with one id; toggling that id then flips both. *)
Theorem same_clock_same_id :
  let a := @perform_all plain_host
             [Add "Write report" 1700000000000 1700000000000;
              Add "Exercise" 1700000000000 1700000000000]
             (@mount plain_host None) in
  ids a = [VStr "1700000000000"; VStr "1700000000000"]
  /\ map (fun target => get_prop target "text") (targets a)
     = [VStr "Exercise"; VStr "Write report"]
  /\ map (fun target => get_prop target "completed")
         (targets (@toggleTarget plain_host "1700000000000" a))
     = [VBool true; VBool true].
Proof. vm_compute. repeat split. Qed.

(** ** The install banner *)

(** What the render guard tests. *)
Lemma banner_rendered_iff (b : Banner) :
  banner_rendered b = true
  <-> showPrompt b = true /\ exists e, installPrompt b = Some e.
Proof.
  unfold banner_rendered.
  destruct (showPrompt b), (installPrompt b) as [e|]; cbn; split;
    try discriminate; try (intros [? [? ?]]; discriminate); eauto.
Qed.

(** The end of [handleInstall] after each answer of the platform, from any
    state: only [accepted] changes the two state cells. *)
Lemma handleInstall_resume_cases (r : reply) (b : Banner) :
  (r = UserChoice accepted
   /\ installPrompt (handleInstall_resume r b) = None
   /\ showPrompt (handleInstall_resume r b) = false)
  \/ (r <> UserChoice accepted /\ handleInstall_resume r b = b).
Proof.
  destruct r as [|[|]]; [right | left | right]; repeat split; discriminate.
Qed.

Lemma banner_invariant_react (b : Banner) (i : input) :
  banner_invariant b -> banner_invariant (react b i).
Proof.
  intros [Hs Hc]. destruct i as [e | | | r]; cbn [react].
  - split; cbn; [discriminate | intros e' [= <-]; auto].
  - destruct (banner_rendered b); [|now split].
    unfold handleInstall_begin. destruct (installPrompt b) as [e|] eqn:E.
    + split; cbn; rewrite ?E; [auto | intros e' He'; right; auto].
    + split; rewrite E; [exact Hs | exact Hc].
  - destruct (banner_rendered b); [|now split].
    split; cbn; [discriminate | exact Hc].
  - destruct (awaiting b) as [|e rest]; [now split|].
    destruct r as [|[|]]; split; cbn; auto; discriminate.
Qed.

Lemma banner_invariant_react_all (inputs : list input) :
  forall b, banner_invariant b -> banner_invariant (react_all inputs b).
Proof.
  induction inputs as [|i inputs IH]; intros b Hb; [exact Hb|].
  cbn [react_all fold_left]. apply IH. now apply banner_invariant_react.
Qed.

(** C9. When the banner is rendered and the user clicks Install, the handle
    is prompted; when the platform's answer arrives, [accepted] clears the
    handle and hides the banner, and [dismissed] (as a rejected [prompt()])
    leaves the handle and the banner as they were: the banner is still
    rendered and the handle still held. *)
Theorem install_only_accepted_clears (b : Banner) (e : BeforeInstallPromptEvent) (r : reply) :
  showPrompt b = true ->
  installPrompt b = Some e ->
  awaiting b = [] ->
  let b' := react_all [click_install; settle r] b in
  calls b' = Prompt e :: calls b
  /\ (r = UserChoice accepted ->
      installPrompt b' = None /\ showPrompt b' = false /\ banner_rendered b' = false)
  /\ (r = UserChoice dismissed ->
      installPrompt b' = Some e /\ showPrompt b' = true /\ banner_rendered b' = true)
  /\ (r <> UserChoice accepted ->
      installPrompt b' = installPrompt b /\ showPrompt b' = showPrompt b).
Proof.
  intros Hs He Ha b'. subst b'. cbn [react_all fold_left react].
  unfold banner_rendered, handleInstall_begin. rewrite Hs, He. cbn. rewrite Ha. cbn.
  destruct r as [|[|]]; cbn; rewrite ?Hs, ?He; repeat split;
    try discriminate; try congruence; intros H; now contradiction H.
Qed.

Lemma install_only_accepted_clears_witness :
  let b := react banner_initial (beforeinstallprompt 7%nat) in
  (showPrompt b = true /\ installPrompt b = Some 7%nat /\ awaiting b = [])
  /\ (let b' := react_all [click_install; settle (UserChoice dismissed)] b in
      installPrompt b' = Some 7%nat /\ showPrompt b' = true /\ banner_rendered b' = true)
  /\ (let b' := react_all [click_install; settle (UserChoice accepted)] b in
      installPrompt b' = None /\ showPrompt b' = false /\ banner_rendered b' = false).
Proof.
  split; [repeat split|].
  pose proof (install_only_accepted_clears
                (react banner_initial (beforeinstallprompt 7%nat)) 7%nat) as H.
  split.
  - exact (proj1 (proj2 (proj2 (H (UserChoice dismissed) eq_refl eq_refl eq_refl)))
             eq_refl).
  - exact (proj1 (proj2 (H (UserChoice accepted) eq_refl eq_refl eq_refl)) eq_refl).
Defined.

(** C10. In every state the component reaches, the banner is rendered
    exactly when the show flag is set and a handle is held; the flag is never
    set without a handle, and the handle held is one that was captured from
    the platform's signal. With no handle, Install returns at once: the
    state is unchanged and [prompt()] is not called. *)
Theorem banner_needs_captured_handle (inputs : list input) :
  let b := react_all inputs banner_initial in
  (banner_rendered b = true
   <-> showPrompt b = true /\ exists e, installPrompt b = Some e)
  /\ (showPrompt b = true -> installPrompt b <> None)
  /\ (forall e, installPrompt b = Some e -> In (PreventDefault e) (calls b))
  /\ (installPrompt b = None ->
      handleInstall_begin b = b /\ forall r, handleInstall r b = b).
Proof.
  intros b.
  assert (Hinv : banner_invariant b).
  { apply banner_invariant_react_all. split; cbn; [discriminate | discriminate]. }
  destruct Hinv as [Hs Hc].
  split; [apply banner_rendered_iff|]. split; [exact Hs|]. split; [exact Hc|].
  intros Hn. unfold handleInstall_begin, handleInstall. now rewrite Hn.
Qed.

(* ===================================================================== *)
(** * Part III: further facts *)
(* ===================================================================== *)

(** ** Properties of objects *)

Lemma get_prop_set_prop_same (o : object) (k : string) (v : value) :
  get_prop (set_prop o k v) k = v.
Proof.
  induction o as [|[k' v'] o IH]; cbn [set_prop get_prop].
  - now rewrite String.eqb_refl.
  - destruct (String.eqb k' k) eqn:E; cbn [get_prop]; now rewrite E.
Qed.

Lemma get_prop_set_prop_other (o : object) (k k' : string) (v : value) :
  k' <> k -> get_prop (set_prop o k v) k' = get_prop o k'.
Proof.
  intros Hne. induction o as [|[k0 v0] o IH]; cbn [set_prop get_prop].
  - destruct (String.eqb_spec k k'); [congruence | reflexivity].
  - destruct (String.eqb_spec k0 k) as [->|E]; cbn [get_prop].
    + destruct (String.eqb_spec k k'); [congruence | reflexivity].
    + now rewrite IH.
Qed.

Lemma keys_set_prop (o : object) (k : string) (v : value) :
  In k (map fst o) -> map fst (set_prop o k v) = map fst o.
Proof.
  induction o as [|[k' v'] o IH]; cbn [map fst In set_prop]; [tauto|].
  intros H. destruct (String.eqb_spec k' k) as [E|E]; cbn [map fst]; [reflexivity|].
  f_equal. apply IH. destruct H; [contradiction | assumption].
Qed.

Lemma setItem_calls_app (l1 l2 : list event) :
  setItem_calls (l1 ++ l2) = setItem_calls l1 ++ setItem_calls l2.
Proof.
  induction l1 as [|[t|m e|v] l1 IH]; cbn [app setItem_calls]; now rewrite ?IH.
Qed.

Lemma toasts_app (l1 l2 : list event) :
  toasts (l1 ++ l2) = toasts l1 ++ toasts l2.
Proof.
  induction l1 as [|[t|m e|v] l1 IH]; cbn [app toasts]; now rewrite ?IH.
Qed.

Section MoreSavingFacts.
Context {host : Host}.

Lemma storage_save_effect_no_room (ts : list object) (a : App) :
  setItem_fits (JSON_stringify ts) = false ->
  save_effect ts a
  = toast save_error_toast
      (console_error "Error saving targets:" QuotaExceededError
         (emit (ESetItem (JSON_stringify ts)) a)).
Proof. intros H. unfold save_effect, setItem. now rewrite H. Qed.

Lemma setItem_calls_save_effect (ts : list object) (a : App) :
  setItem_calls (log (save_effect ts a)) = JSON_stringify ts :: setItem_calls (log a).
Proof.
  destruct (log_save_effect ts a) as (evs & -> & H).
  now rewrite setItem_calls_app, H.
Qed.

Lemma storage_save_effect_fits_all (ts : list object) (a : App) :
  (forall v, setItem_fits v = true) ->
  storage (save_effect ts a) = Some (JSON_stringify ts).
Proof. intros H. now rewrite save_effect_fits by apply H. Qed.

Lemma render_changed (a : App) :
  targets_changed a = true ->
  render a = save_effect (targets a)
               {| targets := targets a; newTarget := newTarget a;
                  storage := storage a; log := log a; targets_changed := false |}.
Proof. unfold render. now intros ->. Qed.

Lemma in_sync_render_changed (a : App) :
  (forall v, setItem_fits v = true) ->
  targets_changed a = true -> in_sync (render a).
Proof.
  intros Hfit Hc. unfold in_sync. rewrite targets_render, render_changed by exact Hc.
  now rewrite storage_save_effect_fits_all.
Qed.

End MoreSavingFacts.

(** ** The storage and the list in memory *)

(** X1. When the storage has no room for the new list, [addTarget] still adds
    the target in memory and announces it; the stored item keeps its old
    value, and the failed save is shown by one more, destructive, toast. *)
Theorem addTarget_when_storage_full {host : Host} (s : string)
    (now_id now_created : Z) (a : App) :
  is_empty (trim s) = false ->
  setItem_fits (JSON_stringify
                  (object_of_Target (new_Target s now_id now_created) :: targets a))
  = false ->
  let a' := addTarget now_id now_created (onChange s a) in
  targets a' = object_of_Target (new_Target s now_id now_created) :: targets a
  /\ newTarget a' = ""
  /\ storage a' = storage a
  /\ toasts (log a') = save_error_toast :: added_toast (trim s) :: toasts (log a).
Proof.
  intros Hs Hfull a'. subst a'. unfold addTarget.
  cbn [onChange setNewTarget newTarget]. rewrite Hs.
  rewrite render_changed by reflexivity.
  cbn [toast emit setNewTarget setTargets targets newTarget storage log].
  rewrite storage_save_effect_no_room by exact Hfull.
  repeat split.
Qed.

Lemma addTarget_when_storage_full_witness :
  let a := @mount full_host None in
  let a' := @addTarget full_host 1700000000000 1700000000001 (onChange "Exercise" a) in
  (is_empty (trim "Exercise") = false
   /\ @setItem_fits full_host
        (JSON_stringify
           (object_of_Target (new_Target "Exercise" 1700000000000 1700000000001)
            :: targets a)) = false)
  /\ targets a' = [object_of_Target (new_Target "Exercise" 1700000000000 1700000000001)]
  /\ storage a' = None.
Proof.
  split; [split; reflexivity|].
  pose proof (@addTarget_when_storage_full full_host "Exercise" 1700000000000
                1700000000001 (@mount full_host None) eq_refl eq_refl) as H.
  split; [exact (proj1 H) | exact (proj1 (proj2 (proj2 H)))].
Defined.

Section SyncFacts.
Context {host : Host}.
Hypothesis room : forall v, setItem_fits v = true.

Lemma in_sync_mount (s : option stored) : in_sync (mount s).
Proof.
  unfold mount.
  destruct (load_effect_cases (initial s)) as [E | [[loaded E] | [e E]]]; rewrite E.
  - unfold in_sync. rewrite render_settled by apply targets_changed_save_effect.
    rewrite targets_save_effect. now rewrite storage_save_effect_fits_all.
  - apply in_sync_render_changed; [exact room|].
    now rewrite targets_changed_save_effect.
  - unfold in_sync. rewrite render_settled by apply targets_changed_save_effect.
    rewrite targets_save_effect. now rewrite storage_save_effect_fits_all.
Qed.

Lemma in_sync_perform (a : App) (act : action) :
  settled a -> in_sync a -> in_sync (perform a act).
Proof.
  intros Hq Hs. destruct act as [s now_id now_created | i | i |]; cbn [perform].
  - unfold addTarget. cbn [onChange setNewTarget newTarget].
    destruct (is_empty (trim s)).
    + rewrite render_settled by exact Hq. exact Hs.
    + now apply in_sync_render_changed.
  - now apply in_sync_render_changed.
  - unfold deleteTarget. destruct (ToString _); now apply in_sync_render_changed.
  - unfold clearCompleted. destruct (Nat.eqb _ 0).
    + rewrite render_settled by exact Hq. exact Hs.
    + now apply in_sync_render_changed.
Qed.

Lemma in_sync_perform_all (acts : list action) :
  forall a, settled a -> in_sync a -> in_sync (perform_all acts a).
Proof.
  induction acts as [|act acts IH]; intros a Hq Hs; [exact Hs|].
  cbn [perform_all fold_left]. apply IH; [apply settled_perform|].
  now apply in_sync_perform.
Qed.

End SyncFacts.

Section RecordsFacts.
Context {host : Host}.

Lemma get_prop_of_json_field (props : list (string * json)) (k : string) :
  get_prop (map (fun kv => (fst kv, of_json (snd kv))) props) k
  = match json_field props k with
    | Some j => of_json j
    | None => VUndefined
    end.
Proof.
  induction props as [|[k' j] props IH]; cbn [map get_prop json_field fst snd];
    [reflexivity|].
  now destruct (String.eqb k' k).
Qed.

Lemma restore_Target_record (j : json) :
  is_Target_record j = true -> exists o, restore (of_json j) = Ok o.
Proof.
  destruct j as [| | | | |props]; try discriminate. cbn [is_Target_record of_json].
  unfold restore. cbn [get_member bind]. rewrite get_prop_of_json_field.
  destruct (json_field props "id") as [[]|]; try discriminate.
  destruct (json_field props "text") as [[]|]; try discriminate.
  destruct (json_field props "completed") as [[]|]; try discriminate.
  destruct (json_field props "createdAt") as [[]|]; try discriminate;
    intros _; cbn [of_json new_Date bind]; eauto.
Qed.

Lemma mapM_restore_records (l : list json) :
  forallb is_Target_record l = true ->
  exists loaded, mapM restore (map of_json l) = Ok loaded.
Proof.
  induction l as [|j l IH]; cbn [forallb map mapM]; [now exists []|].
  intros H. apply andb_prop in H. destruct H as [Hj Hl].
  destruct (restore_Target_record j Hj) as [o ->].
  destruct (IH Hl) as [loaded ->]. cbn [bind]. now exists (o :: loaded).
Qed.

(** The loading effect calls [setTargets] on an array of records, and on no
    other of the stored items above. *)
Lemma load_effect_sets_records (s : option stored) :
  loads_records_or_nothing s = true ->
  targets_changed (load_effect (initial s)) = true
  <-> exists st, s = Some st /\ passes_shape_validation st = true.
Proof.
  intros Hs. split.
  - intros Hc. destruct s as [st|]; [|discriminate Hc].
    exists st. split; [reflexivity|].
    cbn [loads_records_or_nothing] in Hs.
    destruct (passes_shape_validation st); [reflexivity|]. exfalso.
    rewrite orb_false_r in Hs. apply orb_prop in Hs. destruct Hs as [Hs|Hs].
    + unfold load_effect in Hc. cbn [initial storage] in Hc.
      apply negb_true_iff in Hs. rewrite Hs in Hc. discriminate Hc.
    + destruct (load_effect_throws st (initial (Some st)) eq_refl Hs) as [e He].
      rewrite He in Hc. discriminate Hc.
  - intros (st & -> & Hv). destruct st as [| |j]; try discriminate.
    destruct j as [| | | |l|]; try discriminate. cbn [passes_shape_validation] in Hv.
    destruct (mapM_restore_records l Hv) as [loaded E].
    unfold load_effect. cbn [initial storage truthy_item JSON_parse bind of_json call_map].
    now rewrite E.
Qed.

Lemma setItem_calls_mount (s : option stored) :
  setItem_calls (log (mount s))
  = (if targets_changed (load_effect (initial s))
     then [JSON_stringify (targets (mount s))] else [])
    ++ [JsonText (JArr [])].
Proof.
  unfold mount.
  destruct (load_effect_cases (initial s)) as [E | [[loaded E] | [e E]]]; rewrite E.
  - cbn [targets_changed initial app].
    rewrite render_settled by apply targets_changed_save_effect.
    now rewrite setItem_calls_save_effect.
  - cbn [setTargets targets_changed app]. rewrite targets_render.
    rewrite render_changed by now rewrite targets_changed_save_effect.
    rewrite setItem_calls_save_effect. cbn [log]. now rewrite setItem_calls_save_effect.
  - cbn [toast console_error emit targets_changed initial app].
    rewrite render_settled by apply targets_changed_save_effect.
    now rewrite setItem_calls_save_effect.
Qed.

End RecordsFacts.

(** X2. As long as the storage has room, and the item stored before the mount
    is one after whose load the list is empty or made of records of the
    interface, the stored item is the text of the list in memory after the
    mount and after every action. *)
Theorem storage_mirrors_targets {host : Host} (s : option stored) (acts : list action) :
  (forall v, setItem_fits v = true) ->
  loads_records_or_nothing s = true ->
  storage (perform_all acts (mount s))
  = Some (JSON_stringify (targets (perform_all acts (mount s)))).
Proof.
  intros room _. apply (in_sync_perform_all room acts).
  - apply settled_mount.
  - now apply in_sync_mount.
Qed.

Lemma storage_mirrors_targets_witness :
  let s := Some (JsonText (JArr [json_of_Target example_Target])) in
  let a := @perform_all plain_host [Add "Exercise" 1700000000500 1700000000500]
             (@mount plain_host s) in
  ((forall v, @setItem_fits plain_host v = true)
   /\ loads_records_or_nothing s = true)
  /\ targets a = map object_of_Target [second_Target; example_Target]
  /\ storage a = Some (JSON_stringify (targets a)).
Proof.
  split; [split; reflexivity|]. split; [vm_compute; reflexivity|].
  apply (@storage_mirrors_targets plain_host
           (Some (JsonText (JArr [json_of_Target example_Target])))
           [Add "Exercise" 1700000000500 1700000000500]); reflexivity.
Defined.

(** X3. On a mount with a stored item after whose load the list is empty or
    made of records of the interface, the first call of [setItem] writes the
    empty array: the saving effect of the first render runs with the empty
    list. A second call, with the list that was loaded, follows exactly when
    the loading effect has called [setTargets], which is exactly when the
    item is an array of records; there is no other call. *)
Theorem mount_saves_empty_first {host : Host} (s : option stored) :
  loads_records_or_nothing s = true ->
  setItem_calls (log (mount s))
  = (if targets_changed (load_effect (initial s))
     then [JSON_stringify (targets (mount s))] else [])
    ++ [JsonText (JArr [])]
  /\ (targets_changed (load_effect (initial s)) = true
      <-> exists st, s = Some st /\ passes_shape_validation st = true)
  /\ targets (mount s) = targets (load_effect (initial s)).
Proof.
  intros Hs. split; [apply setItem_calls_mount|].
  split; [now apply load_effect_sets_records|].
  unfold mount. now rewrite targets_render, targets_save_effect.
Qed.

Lemma mount_saves_empty_first_witness :
  let s := Some (JsonText (JArr [json_of_Target example_Target])) in
  loads_records_or_nothing s = true
  /\ setItem_calls (log (@mount plain_host s))
     = [JsonText (JArr [json_of_Target example_Target]); JsonText (JArr [])]
  /\ setItem_calls (log (@mount plain_host (Some Unparsable))) = [JsonText (JArr [])].
Proof.
  split; [reflexivity|]. split.
  - rewrite (proj1 (@mount_saves_empty_first plain_host
                      (Some (JsonText (JArr [json_of_Target example_Target])))
                      eq_refl)).
    vm_compute. reflexivity.
  - rewrite (proj1 (@mount_saves_empty_first plain_host (Some Unparsable) eq_refl)).
    reflexivity.
Defined.

(** X4. The loading effect writes nothing to the storage and raises at most one
    toast: either no toast at all, or the toast of the failed load, and then
    the list is the one it found. *)
Theorem load_effect_at_most_one_toast {host : Host} (a : App) :
  storage (load_effect a) = storage a
  /\ setItem_calls (log (load_effect a)) = setItem_calls (log a)
  /\ (toasts (log (load_effect a)) = toasts (log a)
      \/ (targets (load_effect a) = targets a
          /\ toasts (log (load_effect a)) = load_error_toast :: toasts (log a))).
Proof.
  destruct (load_effect_cases a) as [E | [[loaded E] | [e E]]]; rewrite E;
    repeat split; auto.
Qed.

(** ** What a load gives, and what a reload needs *)

Lemma mapM_Forall {A B} (f : A -> result B) (P : B -> Prop) (l : list A) :
  (forall x y, f x = Ok y -> P y) ->
  forall l', mapM f l = Ok l' -> Forall P l' /\ List.length l' = List.length l.
Proof.
  intros Hf. induction l as [|x l IH]; cbn [mapM]; intros l' H.
  - injection H as <-. now split.
  - destruct (f x) as [y|e] eqn:Ex; cbn [bind] in H; [|discriminate].
    destruct (mapM f l) as [ys|e]; cbn [bind] in H; [|discriminate].
    injection H as <-. destruct (IH ys eq_refl) as [HF HL].
    split; [constructor; eauto | cbn; now rewrite HL].
Qed.

Section LoadedFacts.
Context {host : Host}.

(** What the callback of the load makes of an element: its own properties,
    each with the value it had, except that [createdAt] is a [Date]. *)
Lemma restore_keeps_properties (t : value) (o : object) :
  restore t = Ok o ->
  has_Date_createdAt o = true
  /\ forall k, k <> "createdAt" -> get_prop o k = get_prop (spread t) k.
Proof.
  unfold restore. destruct (get_member t "createdAt") as [c|e]; cbn [bind]; [|discriminate].
  destruct (new_Date c) as [d|e]; cbn [bind]; [|discriminate].
  intros [= <-]. split.
  - unfold has_Date_createdAt. now rewrite get_prop_set_prop_same.
  - intros k Hk. now apply get_prop_set_prop_other.
Qed.

Lemma has_Date_load_effect (a : App) :
  forallb has_Date_createdAt (targets a) = true ->
  forallb has_Date_createdAt (targets (load_effect a)) = true.
Proof.
  intros Ha. unfold load_effect. destruct (storage a) as [s|]; [|exact Ha].
  destruct (truthy_item s); [|exact Ha].
  destruct (JSON_parse s) as [parsed|e]; cbn [bind]; [|exact Ha].
  destruct parsed; cbn [call_map]; try exact Ha.
  destruct (mapM restore l) as [loaded|e] eqn:E; [|exact Ha].
  cbn [setTargets targets]. apply forallb_forall. apply Forall_forall.
  apply (mapM_Forall restore (fun o => has_Date_createdAt o = true) l); [|exact E].
  intros x y H. now apply restore_keeps_properties in H.
Qed.

Lemma has_Date_toggled (o : object) (v : value) :
  has_Date_createdAt (set_prop o "completed" v) = has_Date_createdAt o.
Proof.
  unfold has_Date_createdAt. now rewrite get_prop_set_prop_other by discriminate.
Qed.

Lemma forallb_filter {A} (p f : A -> bool) (l : list A) :
  forallb p l = true -> forallb p (filter f l) = true.
Proof.
  rewrite !forallb_forall. intros H x Hx. apply H. apply filter_In in Hx. tauto.
Qed.

Lemma has_Date_perform (a : App) (act : action) :
  forallb has_Date_createdAt (targets a) = true ->
  forallb has_Date_createdAt (targets (perform a act)) = true.
Proof.
  intros Ha. destruct act as [s now_id now_created | i | i |]; cbn [perform].
  - unfold addTarget. rewrite targets_render. cbn [onChange setNewTarget newTarget].
    destruct (is_empty (trim s));
      cbn [toast emit onChange setNewTarget setTargets targets];
      [exact Ha|].
    apply forallb_forall. intros o [<- | Ho]; [reflexivity|].
    now apply (proj1 (forallb_forall _ _) Ha).
  - unfold toggleTarget. rewrite targets_render. cbn [setTargets targets].
    rewrite forallb_forall in *. intros o Ho. apply in_map_iff in Ho.
    destruct Ho as (o0 & <- & Ho0).
    destruct (strict_eq_string _ i); [rewrite has_Date_toggled|]; now apply Ha.
  - rewrite targets_deleteTarget. now apply forallb_filter.
  - destruct (targets_clearCompleted a) as [-> | ->]; [exact Ha|].
    now apply forallb_filter.
Qed.

Lemma has_Date_perform_all (acts : list action) :
  forall a, forallb has_Date_createdAt (targets a) = true ->
  forallb has_Date_createdAt (targets (perform_all acts a)) = true.
Proof.
  induction acts as [|act acts IH]; intros a Ha; [exact Ha|].
  cbn [perform_all fold_left]. apply IH. now apply has_Date_perform.
Qed.

Lemma has_Date_mount (s : option stored) :
  forallb has_Date_createdAt (targets (mount s)) = true.
Proof.
  unfold mount. rewrite targets_render, targets_save_effect.
  now apply has_Date_load_effect.
Qed.

(** Reading a property back from the text of an object. *)
Lemma get_prop_of_to_json (o : object) (k : string) (j : json) :
  to_json (get_prop o k) = Some j ->
  get_prop (map (fun kv => (fst kv, of_json (snd kv)))
              (flat_map (fun kv => match to_json (snd kv) with
                                   | Some j' => [(fst kv, j')]
                                   | None => []
                                   end) o)) k
  = of_json j.
Proof.
  induction o as [|[k' v'] o IH]; cbn [get_prop flat_map fst snd]; [discriminate|].
  destruct (String.eqb k' k) eqn:E.
  - intros ->. cbn [app map get_prop fst snd]. now rewrite E.
  - intros H. destruct (to_json v'); cbn [app map get_prop fst snd];
      rewrite ?E; now apply IH.
Qed.

Lemma restore_saved_object (o : object) :
  has_Date_createdAt o = true ->
  forall j, to_json (VObj o) = Some j -> exists o', restore (of_json j) = Ok o'.
Proof.
  unfold has_Date_createdAt. destruct (get_prop o "createdAt") as [| | | | |d| |] eqn:E;
    try discriminate.
  intros _ j. cbn [to_json]. intros [= <-]. cbn [of_json]. unfold restore.
  cbn [get_member bind].
  assert (Hj : exists j', to_json (VDate d) = Some j'
                          /\ (j' = JNull \/ exists s, j' = JStr s)).
  { destruct d as [t|]; cbn [to_json]; eauto. }
  destruct Hj as (j' & Hj' & Hshape). rewrite <- E in Hj'.
  rewrite (get_prop_of_to_json o "createdAt" j' Hj').
  destruct Hshape as [-> | [s ->]]; cbn [of_json new_Date bind]; eauto.
Qed.

Lemma mapM_restore_saved (ts : list object) :
  forallb has_Date_createdAt ts = true ->
  exists loaded,
    mapM restore
      (map of_json
         (map (fun e => match to_json e with Some j => j | None => JNull end)
              (map VObj ts)))
    = Ok loaded.
Proof.
  induction ts as [|o ts IH]; cbn [forallb map mapM]; [now exists []|].
  intros H. apply andb_prop in H. destruct H as [Ho Hts].
  destruct (to_json (VObj o)) as [j|] eqn:Ej; [|discriminate Ej].
  destruct (restore_saved_object o Ho j Ej) as [o' ->].
  destruct (IH Hts) as [loaded ->]. cbn [bind]. now exists (o' :: loaded).
Qed.

Lemma load_effect_saved (ts : list object) :
  forallb has_Date_createdAt ts = true ->
  exists loaded,
    load_effect (initial (Some (JSON_stringify ts)))
    = setTargets (fun _ => loaded) (initial (Some (JSON_stringify ts)))
    /\ List.length loaded = List.length ts.
Proof.
  intros H. destruct (mapM_restore_saved ts H) as [loaded E].
  exists loaded. split.
  - unfold load_effect, JSON_stringify. cbn [to_json initial storage truthy_item
      JSON_parse bind of_json call_map]. now rewrite E.
  - apply (mapM_Forall restore (fun _ => True)) in E; [|auto].
    destruct E as [_ ->]. now rewrite !length_map.
Qed.

End LoadedFacts.

(** X5. Whatever is in the storage at the mount and whatever is done afterwards,
    the [createdAt] of every target of the list is a [Date]: the load makes
    one of any stored value, and no handler touches it. *)
Theorem createdAt_always_a_Date {host : Host} (s : option stored) (acts : list action) :
  forallb has_Date_createdAt (targets (perform_all acts (mount s))) = true.
Proof. apply has_Date_perform_all. apply has_Date_mount. Qed.

(** X6. The load after a save never fails: what the component has saved, in any
    state it can be in, is read back by the loading effect as a list of the
    same length, with no toast. *)
Theorem reload_of_saved_list_succeeds {host : Host} (s : option stored)
    (acts : list action) :
  let a := perform_all acts (mount s) in
  let page := initial (Some (JSON_stringify (targets a))) in
  exists loaded,
    load_effect page = setTargets (fun _ => loaded) page
    /\ List.length loaded = List.length (targets a)
    /\ toasts (log (load_effect page)) = [].
Proof.
  intros a page. subst a page.
  destruct (load_effect_saved (targets (perform_all acts (mount s)))) as (loaded & E & L).
  - apply has_Date_perform_all. apply has_Date_mount.
  - exists loaded. rewrite E. repeat split. exact L.
Qed.

(** X7. An element that loads keeps each of its own properties other than
    [createdAt] with its value, and gets a [Date] as [createdAt]. *)
Theorem restore_only_replaces_createdAt {host : Host} (t : value) (o : object) :
  restore t = Ok o ->
  has_Date_createdAt o = true
  /\ (forall k, k <> "createdAt" -> get_prop o k = get_prop (spread t) k)
  /\ (In "createdAt" (map fst (spread t)) -> map fst o = map fst (spread t)).
Proof.
  intros H. destruct (restore_keeps_properties t o H) as [H1 H2].
  split; [exact H1|]. split; [exact H2|].
  unfold restore in H. destruct (get_member t "createdAt") as [c|e]; cbn [bind] in H;
    [|discriminate].
  destruct (new_Date c) as [d|e]; cbn [bind] in H; [|discriminate].
  injection H as <-. apply keys_set_prop.
Qed.

Lemma restore_only_replaces_createdAt_witness :
  let t := VObj [("id", VStr "7"); ("createdAt", VStr "2024-02-29T12:34:56.789Z")] in
  let o := [("id", VStr "7"); ("createdAt", VDate (Some 1709210096789))] in
  @restore plain_host t = Ok o
  /\ has_Date_createdAt o = true
  /\ get_prop o "id" = VStr "7".
Proof.
  split; [reflexivity|].
  pose proof (@restore_only_replaces_createdAt plain_host
                (VObj [("id", VStr "7"); ("createdAt", VStr "2024-02-29T12:34:56.789Z")])
                [("id", VStr "7"); ("createdAt", VDate (Some 1709210096789))]
                eq_refl) as H.
  split; [exact (proj1 H) | exact (proj1 (proj2 H) "id" ltac:(discriminate))].
Defined.

(** ** The text of a target *)

Lemma starts_clean_trimStart (s : string) : starts_clean (trimStart s) = true.
Proof.
  induction s as [|c s IH]; [reflexivity|]. cbn [trimStart].
  destruct (is_white_space c) eqn:E; [exact IH|]. cbn [starts_clean]. now rewrite E.
Qed.

Lemma trimStart_clean (s : string) : starts_clean s = true -> trimStart s = s.
Proof.
  destruct s as [|c s]; [reflexivity|]. cbn [starts_clean trimStart].
  now destruct (is_white_space c).
Qed.

Lemma starts_clean_trimEnd (s : string) :
  starts_clean s = true -> starts_clean (trimEnd s) = true.
Proof.
  destruct s as [|c s]; [reflexivity|]. cbn [starts_clean trimEnd].
  intros H. destruct (trimEnd s); destruct (is_white_space c) eqn:W; try discriminate;
    cbn [starts_clean]; now rewrite W.
Qed.

Lemma trimEnd_cons (c : ascii) (s : string) :
  trimEnd (String c s)
  = match trimEnd s with
    | EmptyString => if is_white_space c then EmptyString else String c EmptyString
    | r => String c r
    end.
Proof. reflexivity. Qed.

Lemma trimEnd_idempotent (s : string) : trimEnd (trimEnd s) = trimEnd s.
Proof.
  induction s as [|c s IH]; [reflexivity|]. rewrite trimEnd_cons.
  destruct (trimEnd s) as [|c' r] eqn:E.
  - destruct (is_white_space c) eqn:W; [reflexivity|].
    rewrite trimEnd_cons. cbn [trimEnd]. now rewrite W.
  - rewrite (trimEnd_cons c (String c' r)), IH. reflexivity.
Qed.

(** [trim] leaves nothing to trim. *)
Lemma trim_idempotent (s : string) : trim (trim s) = trim s.
Proof.
  unfold trim.
  rewrite (trimStart_clean (trimEnd (trimStart s)))
    by (apply starts_clean_trimEnd, starts_clean_trimStart).
  apply trimEnd_idempotent.
Qed.

Section AddedFacts.
Context {host : Host}.

Lemma as_added_flipped (t : Target) : as_added (flipped t) = as_added t.
Proof. reflexivity. Qed.

(** The lists of targets that the handlers keep in shape. *)
Lemma as_added_perform (a : App) (act : action) (C : list Target) :
  targets a = map object_of_Target C ->
  forallb as_added C = true ->
  exists C', targets (perform a act) = map object_of_Target C'
             /\ forallb as_added C' = true.
Proof.
  intros Ha HC. destruct act as [s now_id now_created | i | i |]; cbn [perform].
  - unfold addTarget. rewrite targets_render. cbn [onChange setNewTarget newTarget].
    destruct (is_empty (trim s)) eqn:E;
      cbn [toast emit onChange setNewTarget setTargets targets].
    + now exists C.
    + exists (new_Target s now_id now_created :: C). rewrite Ha. split; [reflexivity|].
      cbn [forallb]. rewrite HC. unfold as_added, new_Target. cbn [text createdAt].
      rewrite E, trim_idempotent, String.eqb_refl. reflexivity.
  - unfold toggleTarget. rewrite targets_render. cbn [setTargets targets].
    rewrite Ha, toggle_objects. exists (toggle_in i C). split; [reflexivity|].
    unfold toggle_in. rewrite forallb_forall in *. intros t Ht.
    apply in_map_iff in Ht. destruct Ht as (t0 & <- & Ht0).
    destruct (String.eqb (id t0) i); [rewrite as_added_flipped|]; now apply HC.
  - rewrite targets_deleteTarget, Ha, delete_objects. exists (delete_in i C).
    split; [reflexivity | now apply forallb_filter].
  - destruct (targets_clearCompleted a) as [-> | ->].
    + now exists C.
    + rewrite Ha, clear_objects. exists (clear_in C).
      split; [reflexivity | now apply forallb_filter].
Qed.

Lemma as_added_perform_all (acts : list action) :
  forall a C,
  targets a = map object_of_Target C ->
  forallb as_added C = true ->
  exists C', targets (perform_all acts a) = map object_of_Target C'
             /\ forallb as_added C' = true.
Proof.
  induction acts as [|act acts IH]; intros a C Ha HC; [now exists C|].
  cbn [perform_all fold_left].
  destruct (as_added_perform a act C Ha HC) as (C1 & H1 & HC1).
  now apply (IH _ C1).
Qed.

End AddedFacts.

(** X8. Starting with nothing stored, the list is at all times a list of records
    of the interface, and the text of each is not empty and has no white
    space at either end: [addTarget] is the only way in, and it stores the
    trimmed input after checking that it is not empty. *)
Theorem texts_never_blank {host : Host} (acts : list action) :
  exists C, targets (perform_all acts (mount None)) = map object_of_Target C
            /\ forallb as_added C = true.
Proof.
  apply (as_added_perform_all acts (mount None) []); [|reflexivity].
  unfold mount. now rewrite targets_render, targets_save_effect.
Qed.

(** ** How the handlers compose *)

Lemma strict_eq_string_iff (v : value) (s : string) :
  strict_eq_string v s = true <-> v = VStr s.
Proof.
  destruct v; cbn [strict_eq_string]; split; try discriminate.
  - intros H. apply String.eqb_eq in H. now subst.
  - intros [= ->]. apply String.eqb_refl.
Qed.

Lemma flipped_involutive (t : Target) : flipped (flipped t) = t.
Proof. destruct t as [i x c d]. unfold flipped. cbn. now rewrite negb_involutive. Qed.

Lemma toggle_in_involutive (i : string) (C : list Target) :
  toggle_in i (toggle_in i C) = C.
Proof.
  unfold toggle_in. rewrite map_map. rewrite <- (map_id C) at 2.
  apply map_ext. intros t. destruct (String.eqb (id t) i) eqn:E.
  - cbn [flipped id]. rewrite E. apply flipped_involutive.
  - now rewrite E.
Qed.

Lemma completed_in_app (l1 l2 : list Target) :
  completed_in (l1 ++ l2) = (completed_in l1 + completed_in l2)%nat.
Proof. unfold completed_in. now rewrite filter_app, length_app. Qed.

Section ComposeFacts.
Context {host : Host}.

Lemma completedCount_objects (a : App) (C : list Target) :
  targets a = map object_of_Target C -> completedCount a = completed_in C.
Proof.
  intros Ha. unfold completedCount, completed_in. rewrite Ha, filter_map_objects.
  now rewrite length_map.
Qed.

Lemma targets_toggleTarget_objects (i : string) (a : App) (C : list Target) :
  targets a = map object_of_Target C ->
  targets (toggleTarget i a) = map object_of_Target (toggle_in i C).
Proof.
  intros Ha. unfold toggleTarget. rewrite targets_render. cbn [setTargets targets].
  now rewrite Ha, toggle_objects.
Qed.

Lemma completedCount_clearCompleted (a : App) : completedCount (clearCompleted a) = 0%nat.
Proof.
  unfold completedCount at 1. unfold clearCompleted. rewrite targets_render.
  destruct (Nat.eqb_spec (List.length (filter (fun t => ToBoolean (get_prop t "completed"))
                                         (targets a))) 0) as [E|E].
  - cbn [toast emit targets]. exact E.
  - cbn [toast emit setTargets targets].
    now rewrite (filter_filter_negb (fun t => ToBoolean (get_prop t "completed"))).
Qed.

Lemma clearCompleted_nothing (a : App) :
  settled a -> completedCount a = 0%nat ->
  clearCompleted a = toast nothing_to_clear_toast a.
Proof.
  intros Hq H0. unfold clearCompleted. unfold completedCount in H0. rewrite H0.
  cbn [Nat.eqb]. now rewrite render_settled by exact Hq.
Qed.

End ComposeFacts.

(** X9. [toggleTarget] changes no property of any target but [completed], and
    neither the number of targets nor their order: the values of every other
    key, read along the list, are the same before and after, whatever the
    objects of the list are. *)
Theorem toggleTarget_touches_only_completed {host : Host} (i k : string) (a : App) :
  k <> "completed" ->
  map (fun o => get_prop o k) (targets (toggleTarget i a))
  = map (fun o => get_prop o k) (targets a)
  /\ totalCount (toggleTarget i a) = totalCount a
  /\ newTarget (toggleTarget i a) = newTarget a.
Proof.
  intros Hk. unfold totalCount, toggleTarget.
  rewrite targets_render, newTarget_render. cbn [setTargets targets newTarget].
  split; [|split; [apply length_map | reflexivity]].
  rewrite map_map. apply map_ext. intros o.
  destruct (strict_eq_string _ i); [|reflexivity].
  now apply get_prop_set_prop_other.
Qed.

Lemma toggleTarget_touches_only_completed_witness :
  "text" <> "completed"
  /\ map (fun o => get_prop o "text")
         (targets (@toggleTarget plain_host "1700000000000" example_App))
     = map (fun o => get_prop o "text") (targets example_App).
Proof.
  split; [discriminate|].
  exact (proj1 (@toggleTarget_touches_only_completed plain_host "1700000000000" "text"
                  example_App ltac:(discriminate))).
Defined.

(** X10. On a list of records, toggling the same id twice gives the list back,
    whether or not a target has the id and even when several have it. *)
Theorem toggleTarget_twice {host : Host} (C : list Target) (i : string) (a : App) :
  targets a = map object_of_Target C ->
  targets (toggleTarget i (toggleTarget i a)) = targets a.
Proof.
  intros Ha.
  rewrite (targets_toggleTarget_objects i _ (toggle_in i C))
    by now apply targets_toggleTarget_objects.
  now rewrite toggle_in_involutive.
Qed.

Lemma toggleTarget_twice_witness :
  targets example_App = map object_of_Target [second_Target; example_Target]
  /\ targets (@toggleTarget plain_host "1700000000500"
                (@toggleTarget plain_host "1700000000500" example_App))
     = targets example_App.
Proof.
  split; [vm_compute; reflexivity|].
  apply (@toggleTarget_twice plain_host [second_Target; example_Target]).
  vm_compute. reflexivity.
Defined.

(** X11. In a list of records with distinct ids, toggling the id of a target moves
    the count of completed targets by exactly one, up when the target was not
    completed and down when it was, and keeps the total. *)
Theorem toggleTarget_moves_count_by_one {host : Host} (l1 l2 : list Target) (t : Target)
    (a : App) :
  targets a = map object_of_Target (l1 ++ t :: l2) ->
  NoDup (map id (l1 ++ t :: l2)) ->
  let a' := toggleTarget (id t) a in
  (completedCount a' + (if completed t then 1 else 0)
   = completedCount a + (if completed t then 0 else 1))%nat
  /\ totalCount a' = totalCount a.
Proof.
  intros Ha Hnd a'. subst a'.
  rewrite (completedCount_objects a _ Ha).
  rewrite (completedCount_objects _ _ (targets_toggleTarget_objects (id t) a _ Ha)).
  unfold totalCount. rewrite (targets_toggleTarget_objects (id t) a _ Ha), Ha.
  rewrite toggle_in_split by exact Hnd.
  rewrite !length_map, !length_app. cbn [List.length]. split; [|reflexivity].
  rewrite !completed_in_app.
  change (completed_in (flipped t :: l2))
    with (List.length (filter completed (flipped t :: l2))).
  change (completed_in (t :: l2)) with (List.length (filter completed (t :: l2))).
  cbn [filter flipped completed]. fold (completed_in l2).
  destruct (completed t); cbn [negb List.length]; fold (completed_in l2); lia.
Qed.

Lemma toggleTarget_moves_count_by_one_witness :
  (targets example_App = map object_of_Target ([second_Target] ++ example_Target :: [])
   /\ NoDup (map id ([second_Target] ++ example_Target :: [])))
  /\ (completedCount (@toggleTarget plain_host (id example_Target) example_App) + 0
      = completedCount example_App + 1)%nat.
Proof.
  split; [split; [vm_compute; reflexivity | exact example_App_ids]|].
  exact (proj1 (@toggleTarget_moves_count_by_one plain_host [second_Target] []
                  example_Target example_App eq_refl example_App_ids)).
Defined.

(** X12. After [deleteTarget], no target of the list has the id, however many had
    it; the targets kept are exactly those with another id, and the list has
    not grown. *)
Theorem deleteTarget_leaves_no_match {host : Host} (i : string) (a : App) :
  let a' := deleteTarget i a in
  (forall o, In o (targets a')
             <-> In o (targets a) /\ get_prop o "id" <> VStr i)
  /\ (In (VStr i) (ids a') -> False)
  /\ (totalCount a' <= totalCount a)%nat.
Proof.
  intros a'. subst a'. unfold ids, totalCount. rewrite targets_deleteTarget.
  split; [|split].
  - intros o. rewrite filter_In, negb_true_iff.
    rewrite <- (strict_eq_string_iff (get_prop o "id") i).
    destruct (strict_eq_string (get_prop o "id") i); intuition congruence.
  - intros H. apply in_map_iff in H. destruct H as (o & Ho & Hin).
    apply filter_In in Hin. destruct Hin as [_ Hin].
    apply (proj2 (strict_eq_string_iff _ _)) in Ho. rewrite Ho in Hin. discriminate.
  - apply filter_length_le.
Qed.

(** X13. Adding a target and then deleting its id gives the list back, provided
    no target of the list had that id already; the toast of the removal names
    the trimmed input. *)
Theorem addTarget_then_deleteTarget {host : Host} (s : string) (now_id now_created : Z)
    (a : App) :
  is_empty (trim s) = false ->
  ~ In (VStr (integer_toString now_id)) (ids a) ->
  let a1 := addTarget now_id now_created (onChange s a) in
  let a2 := deleteTarget (integer_toString now_id) a1 in
  targets a2 = targets a
  /\ exists evs, log a2 = evs ++ EToast (removed_toast (trim s)) :: log a1.
Proof.
  intros Hs Hfresh a1 a2.
  assert (H1 : targets a1
               = object_of_Target (new_Target s now_id now_created) :: targets a).
  { subst a1. unfold addTarget. rewrite targets_render.
    cbn [onChange setNewTarget newTarget]. now rewrite Hs. }
  split.
  - subst a2. rewrite targets_deleteTarget, H1. cbn [filter].
    change (strict_eq_string
              (get_prop (object_of_Target (new_Target s now_id now_created)) "id")
              (integer_toString now_id))
      with (String.eqb (integer_toString now_id) (integer_toString now_id)).
    rewrite String.eqb_refl. cbn [negb].
    apply forallb_filter_id. apply forallb_forall. intros o Ho.
    apply negb_true_iff. destruct (strict_eq_string _ _) eqn:E; [|reflexivity].
    apply strict_eq_string_iff in E. exfalso. apply Hfresh. unfold ids.
    rewrite <- E. now apply (in_map (fun target => get_prop target "id")).
  - destruct (log_deleteTarget (integer_toString now_id) a1
                (object_of_Target (new_Target s now_id now_created)) (trim s))
      as (evs & Hlog & _).
    + rewrite H1. cbn [find].
      change (strict_eq_string
                (get_prop (object_of_Target (new_Target s now_id now_created)) "id")
                (integer_toString now_id))
        with (String.eqb (integer_toString now_id) (integer_toString now_id)).
      now rewrite String.eqb_refl.
    + reflexivity.
    + now exists evs.
Qed.

Lemma addTarget_then_deleteTarget_witness :
  let a1 := @addTarget plain_host 1700000000900 1700000000900
              (onChange " Read " example_App) in
  (is_empty (trim " Read ") = false
   /\ ~ In (VStr (integer_toString 1700000000900)) (ids example_App))
  /\ targets (@deleteTarget plain_host (integer_toString 1700000000900) a1)
     = targets example_App.
Proof.
  assert (Hfresh : ~ In (VStr (integer_toString 1700000000900)) (ids example_App)).
  { vm_compute. intuition discriminate. }
  split; [split; [reflexivity | exact Hfresh]|].
  exact (proj1 (@addTarget_then_deleteTarget plain_host " Read " 1700000000900
                  1700000000900 example_App eq_refl Hfresh)).
Defined.

(** X14. Right after [clearCompleted], a second [clearCompleted] finds nothing to
    clear: it leaves the list and the storage as they are and only raises the
    default toast that says so. *)
Theorem clearCompleted_twice {host : Host} (a : App) :
  let a1 := clearCompleted a in
  let a2 := clearCompleted a1 in
  targets a2 = targets a1
  /\ storage a2 = storage a1
  /\ log a2 = EToast nothing_to_clear_toast :: log a1.
Proof.
  intros a1 a2. subst a2.
  rewrite (clearCompleted_nothing a1)
    by (apply settled_render || apply completedCount_clearCompleted).
  repeat split.
Qed.

(** ** More on the install banner *)

Lemma banner_hidden_react (b : Banner) (i : input) :
  banner_rendered b = false -> is_signal i = false ->
  banner_rendered (react b i) = false /\ calls (react b i) = calls b.
Proof.
  intros Hb Hi. destruct i as [e | | | r]; cbn [react]; [discriminate | | |].
  - now rewrite Hb.
  - now rewrite Hb.
  - destruct (awaiting b) as [|e rest]; [now split|].
    destruct r as [|[|]]; split; try reflexivity; exact Hb.
Qed.

Lemma prompts_captured_react (b : Banner) (i : input) :
  prompts_captured b -> prompts_captured (react b i).
Proof.
  intros [Hp Hc]. destruct i as [e | | | r]; cbn [react].
  - split; cbn [handleBeforeInstallPrompt setShowPrompt setInstallPrompt called calls
                  installPrompt In].
    + intros e' [H | H]; [discriminate | right; auto].
    + intros e' [= <-]. now left.
  - destruct (banner_rendered b); [|now split].
    unfold handleInstall_begin. destruct (installPrompt b) as [e|] eqn:E.
    + split; cbn [called calls installPrompt In].
      * intros e' [[= <-] | H]; right; [now apply Hc | auto].
      * intros e' He'. right. apply Hc. rewrite E in He'. exact He'.
    + split; [exact Hp | rewrite E; exact Hc].
  - destruct (banner_rendered b); [|now split].
    split; [exact Hp | exact Hc].
  - destruct (awaiting b) as [|e rest]; [now split|].
    destruct r as [|[|]]; split; cbn; auto; discriminate.
Qed.

(** X17. While no new signal of the platform arrives, a banner that is not
    rendered stays so and [prompt()] is not called, whatever is clicked and
    whatever answers arrive: after a dismissal or an accepted install the
    component does not show the banner again by itself. *)
Theorem banner_stays_hidden_without_signal (inputs : list input) :
  forall b,
  banner_rendered b = false ->
  forallb (fun i => negb (is_signal i)) inputs = true ->
  banner_rendered (react_all inputs b) = false
  /\ calls (react_all inputs b) = calls b.
Proof.
  induction inputs as [|i inputs IH]; intros b Hb Hin; [now split|].
  cbn [forallb] in Hin. apply andb_prop in Hin. destruct Hin as [Hi Hin].
  apply negb_true_iff in Hi.
  destruct (banner_hidden_react b i Hb Hi) as [Hb' Hc'].
  change (react_all (i :: inputs) b) with (react_all inputs (react b i)).
  destruct (IH (react b i) Hb' Hin) as [H1 H2].
  split; [exact H1 | now rewrite H2].
Qed.

Lemma banner_stays_hidden_without_signal_witness :
  let b := react_all [beforeinstallprompt 7%nat; click_dismiss] banner_initial in
  let inputs := [click_install; settle (UserChoice accepted); click_dismiss] in
  (banner_rendered b = false
   /\ forallb (fun i => negb (is_signal i)) inputs = true)
  /\ banner_rendered (react_all inputs b) = false
  /\ calls (react_all inputs b) = calls b.
Proof.
  split; [split; reflexivity|].
  apply (banner_stays_hidden_without_signal
           [click_install; settle (UserChoice accepted); click_dismiss]); reflexivity.
Defined.

(** X18. In every state the component reaches, each handle that [prompt()] was
    called on is one that was captured from a signal of the platform (with
    its default prevented) before. *)
Theorem prompt_only_on_captured_handles (inputs : list input) (e : BeforeInstallPromptEvent) :
  In (Prompt e) (calls (react_all inputs banner_initial)) ->
  In (PreventDefault e) (calls (react_all inputs banner_initial)).
Proof.
  assert (H : forall b, prompts_captured b -> prompts_captured (react_all inputs b)).
  { induction inputs as [|i inputs IH]; intros b Hb; [exact Hb|].
    cbn [react_all fold_left]. apply IH. now apply prompts_captured_react. }
  apply (H banner_initial). split; [intros e' [] | discriminate].
Qed.

Lemma prompt_only_on_captured_handles_witness :
  let inputs := [beforeinstallprompt 7%nat; click_install] in
  In (Prompt 7%nat) (calls (react_all inputs banner_initial))
  /\ In (PreventDefault 7%nat) (calls (react_all inputs banner_initial)).
Proof.
  assert (H : In (Prompt 7%nat)
                 (calls (react_all [beforeinstallprompt 7%nat; click_install]
                           banner_initial))) by (left; reflexivity).
  split; [exact H|].
  exact (prompt_only_on_captured_handles [beforeinstallprompt 7%nat; click_install]
           7%nat H).
Defined.

(** X19. An accepted answer clears whatever handle is held when it arrives: when
    the platform signals again between the click on Install and the answer, the
    new handle is dropped and the banner hidden although [prompt()] was only
    called on the old one. *)
Theorem late_accepted_drops_newer_handle (b : Banner) (e1 e2 : BeforeInstallPromptEvent) :
  showPrompt b = true ->
  installPrompt b = Some e1 ->
  awaiting b = [] ->
  let b' := react_all [click_install; beforeinstallprompt e2;
                       settle (UserChoice accepted)] b in
  installPrompt b' = None
  /\ banner_rendered b' = false
  /\ calls b' = PreventDefault e2 :: Prompt e1 :: calls b.
Proof.
  intros Hs He Ha b'. subst b'.
  assert (Hr : banner_rendered b = true) by (unfold banner_rendered; now rewrite Hs, He).
  cbn [react_all fold_left react]. rewrite Hr.
  unfold handleInstall_begin. rewrite He. cbn. rewrite Ha. cbn. repeat split.
Qed.

Lemma late_accepted_drops_newer_handle_witness :
  let b := react banner_initial (beforeinstallprompt 7%nat) in
  let b' := react_all [click_install; beforeinstallprompt 8%nat;
                       settle (UserChoice accepted)] b in
  (showPrompt b = true /\ installPrompt b = Some 7%nat /\ awaiting b = [])
  /\ installPrompt b' = None
  /\ banner_rendered b' = false
  /\ calls b' = PreventDefault 8%nat :: Prompt 7%nat :: calls b.
Proof.
  split; [repeat split|].
  apply (late_accepted_drops_newer_handle
           (react banner_initial (beforeinstallprompt 7%nat)) 7%nat 8%nat); reflexivity.
Defined.

(** ** The list in memory and the storage *)

Section MemoryFacts.
Context {host : Host}.

Lemma targets_perform (a : App) (act : action) :
  targets (perform a act)
  = match act with
    | Add s now_id now_created =>
        if is_empty (trim s) then targets a
        else object_of_Target (new_Target s now_id now_created) :: targets a
    | Toggle i =>
        map (fun target : object =>
               if strict_eq_string (get_prop target "id") i
               then set_prop target "completed"
                      (VBool (negb (ToBoolean (get_prop target "completed"))))
               else target) (targets a)
    | Delete i =>
        filter (fun target => negb (strict_eq_string (get_prop target "id") i))
               (targets a)
    | ClearCompleted =>
        if (List.length (filter is_completed (targets a)) =? 0)%nat then targets a
        else filter (fun target => negb (is_completed target)) (targets a)
    end.
Proof.
  destruct act as [s now_id now_created | i | i |]; cbn [perform].
  - unfold addTarget. rewrite targets_render. cbn [onChange setNewTarget newTarget].
    now destruct (is_empty (trim s)).
  - unfold toggleTarget. now rewrite targets_render.
  - apply targets_deleteTarget.
  - unfold clearCompleted. rewrite targets_render. fold is_completed.
    now destruct (Nat.eqb _ 0).
Qed.

End MemoryFacts.

(** X15. The list in memory does not depend on the storage having room: with the
    same stored item at the mount and the same actions, a host whose saves
    fail (all or some of them) ends with the same list as one whose saves
    succeed. *)
Theorem targets_independent_of_storage (h : Host) (fits : stored -> bool)
    (s : option stored) (acts : list action) :
  targets (@perform_all (with_storage h fits) acts (@mount (with_storage h fits) s))
  = targets (@perform_all h acts (@mount h s)).
Proof.
  assert (Hm : targets (@mount (with_storage h fits) s) = targets (@mount h s)).
  { unfold mount. now rewrite !targets_render, !targets_save_effect. }
  revert Hm. generalize (@mount (with_storage h fits) s) (@mount h s).
  induction acts as [|act acts IH]; intros a1 a2 Ha; [exact Ha|].
  cbn [perform_all fold_left]. apply IH.
  rewrite (@targets_perform (with_storage h fits)), (@targets_perform h), Ha.
  reflexivity.
Qed.

(** ** The percentage *)

Lemma percentage_ok_250 :
  all_below (Z.to_nat 251) 0 (fun t => all_below (Z.to_nat (t + 1)) 0 (percentage_ok t)) = true.
Proof. vm_cast_no_check (eq_refl true). Qed.

(** X16. For a list of up to 250 targets, the percentage of the summary is an
    integer from 0 to 100 that is nearest to the exact ratio of the completed
    targets (at a tie, one of the two nearest), and 0 for the empty list. *)
Theorem completionPercentage_nearest (a : App) :
  (totalCount a <= 250)%nat ->
  exists p, completionPercentage a = Some p
            /\ 0 <= p <= 100
            /\ Z.abs (2 * Z.of_nat (totalCount a) * p - 200 * Z.of_nat (completedCount a))
               <= Z.of_nat (totalCount a)
            /\ (totalCount a = 0%nat -> p = 0).
Proof.
  intros Ht. unfold completionPercentage.
  assert (Hc : (completedCount a <= totalCount a)%nat) by apply filter_length_le.
  pose proof (all_below_spec _ _ _ percentage_ok_250 (Z.of_nat (totalCount a))
                ltac:(lia)) as H1. cbv beta in H1.
  pose proof (all_below_spec _ _ _ H1 (Z.of_nat (completedCount a))
                ltac:(lia)) as H2.
  unfold percentage_ok in H2.
  destruct (percentage_of (Z.of_nat (completedCount a)) (Z.of_nat (totalCount a)))
    as [p|] eqn:E; [|discriminate].
  apply andb_prop in H2. destruct H2 as [H2 H3]. apply andb_prop in H2.
  destruct H2 as [H2 H4]. rewrite Z.leb_le in H2, H3, H4.
  exists p. repeat split; try assumption.
  intros H0. rewrite H0 in E. unfold percentage_of in E. cbn in E. now injection E.
Qed.

Lemma completionPercentage_nearest_witness :
  let a := @toggleTarget plain_host "1700000000500" example_App in
  (totalCount a <= 250)%nat
  /\ exists p, completionPercentage a = Some p /\ 0 <= p <= 100.
Proof.
  assert (H : (totalCount (@toggleTarget plain_host "1700000000500" example_App)
               <= 250)%nat) by (vm_compute; lia).
  split; [exact H|].
  destruct (completionPercentage_nearest _ H) as (p & Hp & Hr & _).
  exists p. split; assumption.
Defined.

Example completionPercentage_half :
  completionPercentage (@toggleTarget plain_host "1700000000500" example_App) = Some 50.
Proof. vm_compute. reflexivity. Qed.


(** ** Distinct clock readings *)

Lemma ids_distinct_when_clocks_differ_witness :
  let acts := [Add "Write report" 1700000000000 1700000000000;
               Add "Exercise" 1700000000500 1700000000500;
               Toggle "1700000000000"] in
  NoDup (id_clocks acts)
  /\ NoDup (ids (@perform_all plain_host acts (@mount plain_host None))).
Proof.
  assert (H : NoDup (id_clocks [Add "Write report" 1700000000000 1700000000000;
                                Add "Exercise" 1700000000500 1700000000500;
                                Toggle "1700000000000"])).
  { repeat constructor; cbn; intuition discriminate. }
  split; [exact H|].
  exact (@ids_distinct_when_clocks_differ plain_host _ H).
Defined.
